(** * restic progress reporter (progress.go)

    A shallow embedding of [Stat] and [Progress] from [progress.go] and the
    properties of their methods.

    - [uint64] counters are [N] with the wrap-around modulo [2^64] written
      out at every addition.
    - A [*Progress] receiver is an [option Progress]: [None] is the nil
      pointer.
    - A Go [panic] is the [Panic] outcome, carrying the message; what a
      program that recovers from it would see is not modelled.
    - The two callback slots hold caller-supplied code; the model keeps
      whether a slot is set and records every invocation, with its
      arguments, in a trace of events.  Callbacks are assumed not to call
      back into the [Progress] they are installed on.
    - Part 1 is the sequential reading of each method: one caller, each
      call runs to completion, so both mutexes are free at every [Lock].
    - Part 2 is an interleaving model in which every shared-memory
      access, every mutex operation and every callback invocation of
      [Report], [reporter] and [Done] is one atomic step; [sync.Once.Do]
      is one step, as its callers are serialised. *)

From Stdlib Require Import DecimalString.
From stdpp Require Import base numbers list strings.

Open Scope N_scope.

(** ** Machine integers *)

Definition uint64_modulus : N := 2 ^ 64.

(** The value a [uint64] variable holds after being assigned [n]. *)
Definition wrap64 (n : N) : N := n mod uint64_modulus.

(** [a += b] on [uint64]. *)
Definition add64 (a b : N) : N := wrap64 (a + b).

(** ** [Stat] *)

Record Stat := mkStat {
  Files : N;
  Dirs  : N;
  Bytes : N;
  Trees : N;
  Blobs : N
}.

(** [Stat{}] *)
Definition Stat_zero : Stat := mkStat 0 0 0 0 0.

(** Every field is a value of type [uint64]. *)
Definition Stat_valid (s : Stat) : Prop :=
  Files s < uint64_modulus /\ Dirs s < uint64_modulus /\
  Bytes s < uint64_modulus /\ Trees s < uint64_modulus /\
  Blobs s < uint64_modulus.

(** [func (s *Stat) Add(other Stat)]: the receiver after the call. *)
Definition Add (s other : Stat) : Stat :=
  {| Files := add64 (Files s) (Files other);
     Dirs  := add64 (Dirs s) (Dirs other);
     Bytes := add64 (Bytes s) (Bytes other);
     Trees := Trees s;
     Blobs := Blobs s |}.

(** ** Formatting *)

(** [%d] of an unsigned integer. *)
Definition fmt_d (n : N) : string := NilZero.string_of_uint (N.to_uint n).

(** Round the rational [num / den] to the nearest integer, ties to even. *)
Definition round_half_even (num den : N) : N :=
  let q := num / den in
  let r := num mod den in
  if (den <? 2 * r) || ((2 * r =? den) && N.odd q) then q + 1 else q.

(** [float64(n)] for a [uint64] [n].  Integers below [2^53] are
    represented exactly; above, the value is rounded to 53 significant
    bits, ties to even.  The result is again an integer. *)
Definition float64_of_uint64 (n : N) : N :=
  if n <? 2 ^ 53 then n
  else
    let e := N.log2 n - 52 in
    round_half_even n (2 ^ e) * 2 ^ e.

(** [fmt.Sprintf("%.3f", b/(1<<k))] for a [float64] [b] holding the
    integer [m].  Dividing by a power of two only changes the exponent,
    so the quotient is exactly [m / 2^k]; [%.3f] prints the exact value
    rounded to three decimals, ties to even. *)
Definition fmt_f3 (m k : N) : string :=
  let t := round_half_even (1000 * m) (2 ^ k) in
  let f := t mod 1000 in
  fmt_d (t / 1000) +:+ "." +:+
  fmt_d (f / 100) +:+ fmt_d (f / 10 mod 10) +:+ fmt_d (f mod 10).

(** The local [str] of [Stat.String]: the byte count scaled to a binary
    unit. *)
Definition byte_str (s : Stat) : string :=
  let b := float64_of_uint64 (Bytes s) in
  if 2 ^ 40 <? Bytes s then fmt_f3 b 40 +:+ " TiB"
  else if 2 ^ 30 <? Bytes s then fmt_f3 b 30 +:+ " GiB"
  else if 2 ^ 20 <? Bytes s then fmt_f3 b 20 +:+ " MiB"
  else if 2 ^ 10 <? Bytes s then fmt_f3 b 10 +:+ " KiB"
  else fmt_d (Bytes s) +:+ "B".

(** [func (s Stat) String() string] *)
Definition Stat_String (s : Stat) : string :=
  "Stat(" +:+ fmt_d (Files s) +:+ " files, " +:+ fmt_d (Dirs s) +:+
  " dirs, " +:+ byte_str s +:+ ")".

(** * Part 1: sequential semantics *)

(** ** Time *)

(** [time.Time] and [time.Duration] are counts of nanoseconds.  A
    [Duration] is an [int64]; [Time.Sub] saturates at its bounds. *)
Definition Since (now start : Z) : Z :=
  Z.max (- 2 ^ 63) (Z.min (2 ^ 63 - 1) (now - start))%Z.

(** ** Outcomes and events *)

Inductive outcome (A : Type) : Type :=
  | Ok (a : A)
  | Panic (msg : string).
Arguments Ok {A} a.
Arguments Panic {A} msg.

(** What a call does besides updating the fields of the receiver. *)
Inductive event :=
  | EvUpdate (s : Stat) (runtime : Z) (ticker : bool)  (* p.OnUpdate(...) *)
  | EvDone (s : Stat) (runtime : Z) (ticker : bool)    (* p.OnDone(...) *)
  | EvMakeChan                                         (* make(chan struct{}) *)
  | EvClose                                            (* close(p.cancel) *)
  | EvNewTicker (d : Z)                                (* time.NewTicker(p.d) *)
  | EvTickerStop                                       (* p.c.Stop() *)
  | EvGo.                                              (* go p.reporter() *)

(** ** [Progress] *)

(** [chan struct{}]: nothing is ever sent on [cancel], it is only closed. *)
Inductive chan := ChanNil | ChanOpen | ChanClosed.

(** [*time.Ticker] *)
Inductive ticker := TickerNil | TickerRunning (d : Z) | TickerStopped.

Record Progress := mkProgress {
  OnUpdate : bool;      (* OnUpdate != nil *)
  OnDone   : bool;      (* OnDone != nil *)
  cur      : Stat;
  start    : Z;
  c        : ticker;
  cancel   : chan;
  o        : bool;      (* sync.Once: has Do already run its argument? *)
  d        : Z;
  running  : bool
}.

Definition set_cur (v : Stat) (p : Progress) : Progress :=
  mkProgress (OnUpdate p) (OnDone p) v (start p) (c p) (cancel p) (o p) (d p) (running p).
Definition set_start (v : Z) (p : Progress) : Progress :=
  mkProgress (OnUpdate p) (OnDone p) (cur p) v (c p) (cancel p) (o p) (d p) (running p).
Definition set_c (v : ticker) (p : Progress) : Progress :=
  mkProgress (OnUpdate p) (OnDone p) (cur p) (start p) v (cancel p) (o p) (d p) (running p).
Definition set_cancel (v : chan) (p : Progress) : Progress :=
  mkProgress (OnUpdate p) (OnDone p) (cur p) (start p) (c p) v (o p) (d p) (running p).
Definition set_o (v : bool) (p : Progress) : Progress :=
  mkProgress (OnUpdate p) (OnDone p) (cur p) (start p) (c p) (cancel p) v (d p) (running p).
Definition set_running (v : bool) (p : Progress) : Progress :=
  mkProgress (OnUpdate p) (OnDone p) (cur p) (start p) (c p) (cancel p) (o p) (d p) v.

(** [func NewProgress(d time.Duration) *Progress]: [&Progress{d: d}],
    every other field has its zero value. *)
Definition NewProgress (d : Z) : option Progress :=
  Some (mkProgress false false Stat_zero 0 TickerNil ChanNil false d false).

(** ** Method bodies: state, trace and panic *)

Definition M (A : Type) : Type := Progress -> outcome (A * Progress * list event).

Definition ret {A} (a : A) : M A := fun p => Ok (a, p, []).
Definition bind {A B} (m : M A) (k : A -> M B) : M B :=
  fun p =>
    match m p with
    | Panic msg => Panic msg
    | Ok (a, p1, t1) =>
        match k a p1 with
        | Panic msg => Panic msg
        | Ok (b, p2, t2) => Ok (b, p2, t1 ++ t2)
        end
    end.
Definition panic {A} (msg : string) : M A := fun _ => Panic msg.
Definition field {A} (f : Progress -> A) : M A := fun p => Ok (f p, p, []).
Definition assign (f : Progress -> Progress) : M unit := fun p => Ok (tt, f p, []).
Definition emit (e : event) : M unit := fun p => Ok (tt, p, [e]).
Definition when (b : bool) (m : M unit) : M unit := if b then m else ret tt.

Declare Scope prog_scope.
Delimit Scope prog_scope with prog.
Notation "x <- m ;; k" := (bind m (fun x => k))
  (at level 100, m at next level, right associativity) : prog_scope.
Notation "m ;; k" := (bind m (fun _ => k))
  (at level 100, right associativity) : prog_scope.
Open Scope prog_scope.

(** [time.NewTicker] panics on a non-positive interval. *)
Definition NewTicker (d : Z) : M ticker :=
  if (d <=? 0)%Z then panic "non-positive interval for NewTicker"
  else emit (EvNewTicker d) ;; ret (TickerRunning d).

(** [close(ch)] *)
Definition close_chan : M unit :=
  ch <- field cancel ;;
  match ch with
  | ChanNil => panic "close of nil channel"
  | ChanClosed => panic "close of closed channel"
  | ChanOpen => assign (set_cancel ChanClosed) ;; emit EvClose
  end.

(** [p.o.Do(f)] *)
Definition once_Do (f : M unit) : M unit :=
  fired <- field o ;;
  if fired then ret tt else assign (set_o true) ;; f.

(** Body of [Reset] for a non-nil receiver. *)
Definition Reset_body : M unit :=
  r <- field running ;;
  when (negb r) (panic "resetting a non-running Progress") ;;
  assign (set_cur Stat_zero).

(** Body of [Start] for a non-nil receiver. *)
Definition Start_body (now : Z) : M unit :=
  r <- field running ;;
  when r (panic "truing to reset a running Progress") ;;
  assign (set_o false) ;;
  emit EvMakeChan ;; assign (set_cancel ChanOpen) ;;
  assign (set_running true) ;;
  Reset_body ;;
  assign (set_start now) ;;
  iv <- field d ;;
  t <- NewTicker iv ;;
  assign (set_c t) ;;
  emit EvGo.

(** Body of [Report] for a non-nil receiver. *)
Definition Report_body (s : Stat) (now : Z) : M unit :=
  r <- field running ;;
  when (negb r) (panic "reporting in a non-running Progress") ;;
  total <- field cur ;;
  assign (set_cur (Add total s)) ;;
  snapshot <- field cur ;;
  f <- field OnUpdate ;;
  st <- field start ;;
  when f (emit (EvUpdate snapshot (Since now st) false)).

(** Body of [Done] for a non-nil receiver. *)
Definition Done_body (now : Z) : M unit :=
  r <- field running ;;
  when (negb r) (panic "Done() called on non-running Progress") ;;
  r' <- field running ;;
  when r'
    (assign (set_running false) ;;
     once_Do close_chan ;;
     snapshot <- field cur ;;
     f <- field OnDone ;;
     st <- field start ;;
     when f (emit (EvDone snapshot (Since now st) false))).

(** ** Methods on a [*Progress] receiver *)

Definition on_receiver (body : M unit) (q : Progress)
  : outcome (option Progress * list event) :=
  match body q with
  | Ok (_, q', t) => Ok (Some q', t)
  | Panic msg => Panic msg
  end.

Definition Start (now : Z) (p : option Progress) :=
  match p with
  | None => Ok (None, [])
  | Some q => on_receiver (Start_body now) q
  end.

Definition Report (s : Stat) (now : Z) (p : option Progress) :=
  match p with
  | None => Ok (None, [])
  | Some q => on_receiver (Report_body s now) q
  end.

Definition ReportFile (size : N) (now : Z) (p : option Progress) :=
  Report (mkStat 1 0 size 0 0) now p.

Definition ReportDir (now : Z) (p : option Progress) :=
  Report (mkStat 0 1 0 0 0) now p.

Definition Reset (p : option Progress) :=
  match p with
  | None => Ok (None, [])
  | Some q => on_receiver Reset_body q
  end.

Definition Done (now : Z) (p : option Progress) :=
  match p with
  | None => Ok (None, [])
  | Some q => on_receiver (Done_body now) q
  end.

Definition nil_dereference : string :=
  "runtime error: invalid memory address or nil pointer dereference".

(** [Current] has no nil check: it reaches for [p.curM] at once. *)
Definition Current (p : option Progress) : outcome Stat :=
  match p with
  | None => Panic nil_dereference
  | Some q => Ok (cur q)
  end.

(** ** Sequences of calls *)

Inductive call :=
  | CStart (now : Z)
  | CReport (s : Stat) (now : Z)
  | CReportFile (size : N) (now : Z)
  | CReportDir (now : Z)
  | CReset
  | CDone (now : Z).

Definition exec (k : call) (p : option Progress)
  : outcome (option Progress * list event) :=
  match k with
  | CStart now => Start now p
  | CReport s now => Report s now p
  | CReportFile size now => ReportFile size now p
  | CReportDir now => ReportDir now p
  | CReset => Reset p
  | CDone now => Done now p
  end.

Fixpoint execs (ks : list call) (p : option Progress)
  : outcome (option Progress * list event) :=
  match ks with
  | [] => Ok (p, [])
  | k :: ks' =>
      match exec k p with
      | Panic msg => Panic msg
      | Ok (p1, t1) =>
          match execs ks' p1 with
          | Panic msg => Panic msg
          | Ok (p2, t2) => Ok (p2, t1 ++ t2)
          end
      end
  end.

(** The receiver after a [Start] that did not panic. *)
Definition started (now : Z) (q : Progress) : Progress :=
  mkProgress (OnUpdate q) (OnDone q) Stat_zero now (TickerRunning (d q))
             ChanOpen false (d q) true.

(** The receiver after a [Done] that did not panic. *)
Definition stopped_by_Done (q : Progress) : Progress :=
  set_cancel ChanClosed (set_o true (set_running false q)).

(** The deltas of a sequence of [Report] calls, summed field by field
    (as natural numbers, without wrap-around). *)
Definition sum_field (f : Stat -> N) (ds : list (Stat * Z)) : N :=
  foldr (fun x acc => f x.1 + acc) 0 ds.

Definition reports (ds : list (Stat * Z)) : list call :=
  map (fun x => CReport x.1 x.2) ds.

(** Two totals agree on the fields [Add] accumulates. *)
Definition same_counts (s t : Stat) : Prop :=
  Files s = Files t /\ Dirs s = Dirs t /\ Bytes s = Bytes t.

Definition is_Done (k : call) : bool :=
  match k with CDone _ => true | _ => false end.

(** The calls that store [Stat{}] in the total: [Reset], and [Start],
    which calls it. *)
Definition zeroes_total (k : call) : bool :=
  match k with CStart _ | CReset => true | _ => false end.

(** * Part 2: interleaving semantics

    Goroutines run on one shared [Progress].  Each shared-memory access,
    each mutex operation and each callback invocation of [Report],
    [reporter] and [Done] is one atomic step, and a schedule decides which
    goroutine moves next.  A [sync.Mutex] is a bit; [Lock] on a held
    mutex cannot move.  The model is sequentially consistent.  The
    receiver is not nil, so the nil tests that open the methods are
    passed over. *)

Record shared := mkShared {
  obj   : Progress;     (* the fields of [*p] *)
  curM  : bool;         (* is [p.curM] held? *)
  fnM   : bool;         (* is [p.fnM] held? *)
  clock : Z;            (* what [time.Now()] returns *)
  trace : list event    (* what has happened so far, oldest first *)
}.

Definition set_obj (f : Progress -> Progress) (σ : shared) : shared :=
  mkShared (f (obj σ)) (curM σ) (fnM σ) (clock σ) (trace σ).
Definition set_curM (b : bool) (σ : shared) : shared :=
  mkShared (obj σ) b (fnM σ) (clock σ) (trace σ).
Definition set_fnM (b : bool) (σ : shared) : shared :=
  mkShared (obj σ) (curM σ) b (clock σ) (trace σ).
Definition log (e : event) (σ : shared) : shared :=
  mkShared (obj σ) (curM σ) (fnM σ) (clock σ) (trace σ ++ [e]).
Definition advance (dt : N) (σ : shared) : shared :=
  mkShared (obj σ) (curM σ) (fnM σ) (clock σ + Z.of_N dt) (trace σ).

(** The three fields [Add] updates, in the order it updates them. *)
Inductive counter := CBytes | CDirs | CFiles.

Definition get (f : counter) (s : Stat) : N :=
  match f with CBytes => Bytes s | CDirs => Dirs s | CFiles => Files s end.

Definition put (f : counter) (v : N) (s : Stat) : Stat :=
  match f with
  | CBytes => mkStat (Files s) (Dirs s) v (Trees s) (Blobs s)
  | CDirs => mkStat (Files s) v (Bytes s) (Trees s) (Blobs s)
  | CFiles => mkStat v (Dirs s) (Bytes s) (Trees s) (Blobs s)
  end.

(** Program points of [Report(s)]; each names the statement that runs
    next. *)
Inductive report_pc :=
  | RP_check                        (* if !p.running { panic(...) } *)
  | RP_lock                         (* p.curM.Lock() *)
  | RP_load (f : counter)           (* read of s.f in  s.f += other.f *)
  | RP_store (f : counter) (tmp : N)  (* write of s.f in  s.f += other.f *)
  | RP_copy                         (* cur := p.cur *)
  | RP_unlock (snap : Stat)         (* p.curM.Unlock() *)
  | RP_test (snap : Stat)           (* if p.OnUpdate != nil *)
  | RP_fn_lock (snap : Stat)        (* p.fnM.Lock() *)
  | RP_call (snap : Stat)           (* p.OnUpdate(cur, time.Since(p.start), false) *)
  | RP_fn_unlock.                   (* p.fnM.Unlock() *)

(** Program points of [reporter()]. *)
Inductive reporter_pc :=
  | PP_select                       (* select { case <-p.c.C: / case <-p.cancel: } *)
  | PP_lock                         (* p.curM.Lock() *)
  | PP_copy                         (* cur := p.cur *)
  | PP_unlock (snap : Stat)         (* p.curM.Unlock() *)
  | PP_test (snap : Stat)           (* if p.OnUpdate != nil *)
  | PP_fn_lock (snap : Stat)        (* p.fnM.Lock() *)
  | PP_call (snap : Stat)           (* p.OnUpdate(cur, time.Since(p.start), true) *)
  | PP_fn_unlock                    (* p.fnM.Unlock() *)
  | PP_stop.                        (* p.c.Stop(); return *)

(** Program points of [Done()]. *)
Inductive done_pc :=
  | DP_check                        (* if !p.running { panic(...) } *)
  | DP_test                         (* if p.running *)
  | DP_clear                        (* p.running = false *)
  | DP_once                         (* p.o.Do(func() { close(p.cancel) }) *)
  | DP_copy                         (* cur := p.cur *)
  | DP_test_done (snap : Stat)      (* if p.OnDone != nil *)
  | DP_fn_lock (snap : Stat)        (* p.fnM.Lock() *)
  | DP_call (snap : Stat)           (* p.OnDone(cur, time.Since(p.start), false) *)
  | DP_fn_unlock.                   (* p.fnM.Unlock() *)

(** A goroutine: in a call of [Report s] with the deltas [rest] still to
    report afterwards, in [reporter], in [Done], returned, or dead. *)
Inductive thread :=
  | InReport (pc : report_pc) (s : Stat) (rest : list Stat)
  | InReporter (pc : reporter_pc)
  | InDone (pc : done_pc)
  | Returned
  | Panicked (msg : string).

(** A goroutine that calls [Report] once for each delta, in order. *)
Definition worker (ds : list Stat) : thread :=
  match ds with
  | [] => Returned
  | s :: rest => InReport RP_check s rest
  end.

Definition next_counter (f : counter) : report_pc :=
  match f with
  | CBytes => RP_load CDirs
  | CDirs => RP_load CFiles
  | CFiles => RP_copy
  end.

Definition unlock_of_unlocked : string := "sync: unlock of unlocked mutex".

Definition Report_step (σ : shared) (pc : report_pc) (s : Stat) (rest : list Stat)
  : option (shared * thread) :=
  match pc with
  | RP_check =>
      if running (obj σ) then Some (σ, InReport RP_lock s rest)
      else Some (σ, Panicked "reporting in a non-running Progress")
  | RP_lock =>
      if curM σ then None
      else Some (set_curM true σ, InReport (RP_load CBytes) s rest)
  | RP_load f =>
      Some (σ, InReport (RP_store f (get f (cur (obj σ)))) s rest)
  | RP_store f tmp =>
      Some (set_obj (fun p => set_cur (put f (add64 tmp (get f s)) (cur p)) p) σ,
            InReport (next_counter f) s rest)
  | RP_copy =>
      Some (σ, InReport (RP_unlock (cur (obj σ))) s rest)
  | RP_unlock snap =>
      if curM σ then Some (set_curM false σ, InReport (RP_test snap) s rest)
      else Some (σ, Panicked unlock_of_unlocked)
  | RP_test snap =>
      if OnUpdate (obj σ) then Some (σ, InReport (RP_fn_lock snap) s rest)
      else Some (σ, worker rest)
  | RP_fn_lock snap =>
      if fnM σ then None
      else Some (set_fnM true σ, InReport (RP_call snap) s rest)
  | RP_call snap =>
      Some (log (EvUpdate snap (Since (clock σ) (start (obj σ))) false) σ,
            InReport RP_fn_unlock s rest)
  | RP_fn_unlock =>
      if fnM σ then Some (set_fnM false σ, worker rest)
      else Some (σ, Panicked unlock_of_unlocked)
  end.

(** At [select], [tick] tells whether the ticker has a tick to deliver
    and the runtime picks that case; otherwise the [cancel] case is taken
    when the channel is closed, and the goroutine waits when it is not. *)
Definition reporter_step (tick : bool) (σ : shared) (pc : reporter_pc)
  : option (shared * thread) :=
  match pc with
  | PP_select =>
      match c (obj σ) with
      | TickerNil => Some (σ, Panicked nil_dereference)
      | TickerStopped =>
          if tick then None
          else match cancel (obj σ) with
               | ChanClosed => Some (σ, InReporter PP_stop)
               | _ => None
               end
      | TickerRunning _ =>
          if tick then Some (σ, InReporter PP_lock)
          else match cancel (obj σ) with
               | ChanClosed => Some (σ, InReporter PP_stop)
               | _ => None
               end
      end
  | PP_lock =>
      if curM σ then None
      else Some (set_curM true σ, InReporter PP_copy)
  | PP_copy =>
      Some (σ, InReporter (PP_unlock (cur (obj σ))))
  | PP_unlock snap =>
      if curM σ then Some (set_curM false σ, InReporter (PP_test snap))
      else Some (σ, Panicked unlock_of_unlocked)
  | PP_test snap =>
      if OnUpdate (obj σ) then Some (σ, InReporter (PP_fn_lock snap))
      else Some (σ, InReporter PP_select)
  | PP_fn_lock snap =>
      if fnM σ then None
      else Some (set_fnM true σ, InReporter (PP_call snap))
  | PP_call snap =>
      Some (log (EvUpdate snap (Since (clock σ) (start (obj σ))) true) σ,
            InReporter PP_fn_unlock)
  | PP_fn_unlock =>
      if fnM σ then Some (set_fnM false σ, InReporter PP_select)
      else Some (σ, Panicked unlock_of_unlocked)
  | PP_stop =>
      match c (obj σ) with
      | TickerNil => Some (σ, Panicked nil_dereference)
      | _ => Some (log EvTickerStop (set_obj (set_c TickerStopped) σ), Returned)
      end
  end.

Definition Done_step (σ : shared) (pc : done_pc) : option (shared * thread) :=
  match pc with
  | DP_check =>
      if running (obj σ) then Some (σ, InDone DP_test)
      else Some (σ, Panicked "Done() called on non-running Progress")
  | DP_test =>
      if running (obj σ) then Some (σ, InDone DP_clear)
      else Some (σ, Returned)
  | DP_clear =>
      Some (set_obj (set_running false) σ, InDone DP_once)
  | DP_once =>
      if o (obj σ) then Some (σ, InDone DP_copy)
      else
        match cancel (obj σ) with
        | ChanNil => Some (set_obj (set_o true) σ, Panicked "close of nil channel")
        | ChanClosed => Some (set_obj (set_o true) σ, Panicked "close of closed channel")
        | ChanOpen =>
            Some (log EvClose
                    (set_obj (fun p => set_cancel ChanClosed (set_o true p)) σ),
                  InDone DP_copy)
        end
  | DP_copy =>
      Some (σ, InDone (DP_test_done (cur (obj σ))))
  | DP_test_done snap =>
      if OnDone (obj σ) then Some (σ, InDone (DP_fn_lock snap))
      else Some (σ, Returned)
  | DP_fn_lock snap =>
      if fnM σ then None
      else Some (set_fnM true σ, InDone (DP_call snap))
  | DP_call snap =>
      Some (log (EvDone snap (Since (clock σ) (start (obj σ))) false) σ,
            InDone DP_fn_unlock)
  | DP_fn_unlock =>
      if fnM σ then Some (set_fnM false σ, Returned)
      else Some (σ, Panicked unlock_of_unlocked)
  end.

Definition thread_step (tick : bool) (σ : shared) (t : thread)
  : option (shared * thread) :=
  match t with
  | InReport pc s rest => Report_step σ pc s rest
  | InReporter pc => reporter_step tick σ pc
  | InDone pc => Done_step σ pc
  | Returned => None
  | Panicked _ => None
  end.

(** ** Schedules *)

Record move := mkMove {
  who    : nat;     (* which goroutine moves *)
  tick   : bool;    (* does the ticker deliver a tick at this [select]? *)
  elapse : N        (* time gone by since the previous move *)
}.

Definition config : Type := shared * list thread.

(** One move; [None] when the chosen goroutine does not exist, has
    finished, or waits for a mutex or a channel. *)
Definition step (mv : move) (cfg : config) : option config :=
  match cfg.2 !! who mv with
  | None => None
  | Some t =>
      match thread_step (tick mv) (advance (elapse mv) cfg.1) t with
      | None => None
      | Some (σ', t') => Some (σ', <[who mv := t']> cfg.2)
      end
  end.

(** A schedule is a list of moves; a move that cannot be made is skipped. *)
Fixpoint run (sched : list move) (cfg : config) : config :=
  match sched with
  | [] => cfg
  | mv :: sched' =>
      match step mv cfg with
      | Some cfg' => run sched' cfg'
      | None => run sched' cfg
      end
  end.

Definition is_Returned (t : thread) : bool :=
  match t with Returned => true | _ => false end.

Definition is_Panicked (t : thread) : bool :=
  match t with Panicked _ => true | _ => false end.

Definition is_worker (t : thread) : bool :=
  match t with InReport _ _ _ => true | _ => false end.

(** How often [close(p.cancel)] and [p.OnDone] have run. *)
Definition is_EvClose (e : event) : bool :=
  match e with EvClose => true | _ => false end.

Definition closes (tr : list event) : list event :=
  List.filter is_EvClose tr.

Definition is_EvDone (e : event) : bool :=
  match e with EvDone _ _ _ => true | _ => false end.

Definition done_calls (tr : list event) : list event :=
  List.filter is_EvDone tr.

(** A started [Progress] with its [reporter] goroutine and one goroutine
    per list of deltas, each about to make its [Report] calls. *)
Definition reporting (q : Progress) (dss : list (list Stat)) : config :=
  (mkShared q false false (start q) [],
   InReporter PP_select :: map worker dss).

(** A started [Progress] with its [reporter] goroutine and one goroutine
    about to call [Done]. *)
Definition shutting_down (q : Progress) : config :=
  (mkShared q false false (start q) [],
   [InDone DP_check; InReporter PP_select]).

(** ** Bookkeeping for the proofs about schedules *)

(** Is the goroutine between [p.curM.Lock()] and [p.curM.Unlock()]? *)
Definition in_cur (t : thread) : bool :=
  match t with
  | InReport (RP_load _ | RP_store _ _ | RP_copy | RP_unlock _) _ _ => true
  | InReporter (PP_copy | PP_unlock _) => true
  | _ => false
  end.

(** Is the goroutine between [p.fnM.Lock()] and [p.fnM.Unlock()]? *)
Definition in_fn (t : thread) : bool :=
  match t with
  | InReport (RP_call _ | RP_fn_unlock) _ _ => true
  | InReporter (PP_call _ | PP_fn_unlock) => true
  | InDone (DP_call _ | DP_fn_unlock) => true
  | _ => false
  end.

Definition count (P : thread -> bool) (ts : list thread) : nat :=
  length (List.filter P ts).

Definition held (b : bool) : nat := if b then 1%nat else 0%nat.

(** Each mutex is held exactly when one goroutine is inside its critical
    section. *)
Definition mutex_ok (cfg : config) : Prop :=
  count in_cur cfg.2 = held (curM cfg.1) /\
  count in_fn cfg.2 = held (fnM cfg.1).

(** The guard [p.o] has fired exactly when [p.cancel] has been closed,
    which then happened once. *)
Definition close_ok (cfg : config) : Prop :=
  if o (obj cfg.1)
  then cancel (obj cfg.1) = ChanClosed /\ closes (trace cfg.1) = [EvClose]
  else cancel (obj cfg.1) = ChanOpen /\ closes (trace cfg.1) = [].

Definition counter_index (f : counter) : nat :=
  match f with CBytes => 0 | CDirs => 1 | CFiles => 2 end%nat.

(** In the current call of [Report], is the write to counter [f] still
    to come? *)
Definition before_store (f : counter) (pc : report_pc) : bool :=
  match pc with
  | RP_check | RP_lock => true
  | RP_load g | RP_store g _ => (counter_index g <=? counter_index f)%nat
  | _ => false
  end.

Definition sum_counter (f : counter) (ds : list Stat) : N :=
  foldr (fun s acc => get f s + acc) 0 ds.

(** What a goroutine has still to add to counter [f]. *)
Definition pending (f : counter) (t : thread) : N :=
  match t with
  | InReport pc s rest =>
      (if before_store f pc then get f s else 0) + sum_counter f rest
  | _ => 0
  end.

Definition total_pending (f : counter) (ts : list thread) : N :=
  foldr (fun t acc => pending f t + acc) 0 ts.

(** An upper bound on the moves a goroutine can still make without a
    tick. *)
Definition rank_report (pc : report_pc) : nat :=
  match pc with
  | RP_check => 14 | RP_lock => 13
  | RP_load CBytes => 12 | RP_store CBytes _ => 11
  | RP_load CDirs => 10 | RP_store CDirs _ => 9
  | RP_load CFiles => 8 | RP_store CFiles _ => 7
  | RP_copy => 6 | RP_unlock _ => 5 | RP_test _ => 4
  | RP_fn_lock _ => 3 | RP_call _ => 2 | RP_fn_unlock => 1
  end%nat.

Definition rank_reporter (pc : reporter_pc) : nat :=
  match pc with
  | PP_select => 2 | PP_lock => 9 | PP_copy => 8 | PP_unlock _ => 7
  | PP_test _ => 6 | PP_fn_lock _ => 5 | PP_call _ => 4
  | PP_fn_unlock => 3 | PP_stop => 1
  end%nat.

Definition rank_done (pc : done_pc) : nat :=
  match pc with
  | DP_check => 9 | DP_test => 8 | DP_clear => 7 | DP_once => 6
  | DP_copy => 5 | DP_test_done _ => 4 | DP_fn_lock _ => 3
  | DP_call _ => 2 | DP_fn_unlock => 1
  end%nat.

Definition rank (t : thread) : nat :=
  match t with
  | InReport pc _ rest => (rank_report pc + 14 * length rest)%nat
  | InReporter pc => rank_reporter pc
  | InDone pc => rank_done pc
  | Returned | Panicked _ => 0%nat
  end.

Definition total_rank (ts : list thread) : nat :=
  foldr (fun t acc => (rank t + acc)%nat) 0%nat ts.

(** Goroutines of a pool that only reports: nobody is in [Done], the
    reporter is not stopping, nobody is dead. *)
Definition reports_only (t : thread) : bool :=
  match t with
  | InDone _ | Panicked _ | InReporter PP_stop => false
  | _ => true
  end.

(** The invariant of a pool that only reports into a running instance:
    the total and what is still to be added make up [goal] in every
    counter, a value read for an update is still the stored one when it
    is written back, and [Trees] and [Blobs] stay [tb]. *)
Definition report_ok (goal : counter -> N) (tb : N * N) (cfg : config) : Prop :=
  running (obj cfg.1) = true /\
  (exists iv, c (obj cfg.1) = TickerRunning iv) /\
  cancel (obj cfg.1) = ChanOpen /\
  forallb reports_only cfg.2 = true /\
  (forall f, wrap64 (get f (cur (obj cfg.1)) + total_pending f cfg.2) = goal f) /\
  (forall i f tmp s rest,
     cfg.2 !! i = Some (InReport (RP_store f tmp) s rest) ->
     tmp = get f (cur (obj cfg.1))) /\
  Trees (cur (obj cfg.1)) = tb.1 /\ Blobs (cur (obj cfg.1)) = tb.2 /\
  (forall f, get f (cur (obj cfg.1)) < uint64_modulus) /\
  mutex_ok cfg.

(** The deltas of all goroutines, summed in one counter. *)
Definition sum_all (f : counter) (dss : list (list Stat)) : N :=
  foldr (fun ds acc => sum_counter f ds + acc) 0 dss.

(** [n] goroutines that each call [Report(Stat{Bytes: 1})] [m] times on
    the instance [q], next to its [reporter]. *)
Definition byte_reporters (q : Progress) (n m : nat) : config :=
  reporting q (replicate n (replicate m (mkStat 0 0 1 0 0))).

(** A running instance as [Start] leaves it and [Report] and [Reset]
    keep it: guard not fired, channel open, ticker running. *)
Definition armed (q : Progress) : Prop :=
  running q = true /\ o q = false /\ cancel q = ChanOpen /\
  exists iv, c q = TickerRunning iv.

(** Where the one call of [Done] stands, against the shared state: the
    flag [running] is cleared at [DP_clear], the guard fires at
    [DP_once], the snapshot satisfies [Q], and [OnDone] has run once
    past [DP_call]. *)
Definition done_stage (Q : Stat -> Prop) (q : Progress) (σ : shared) (t : thread)
  : Prop :=
  match t with
  | InDone (DP_check | DP_test | DP_clear) =>
      running (obj σ) = true /\ o (obj σ) = false /\ done_calls (trace σ) = []
  | InDone DP_once =>
      running (obj σ) = false /\ o (obj σ) = false /\ done_calls (trace σ) = []
  | InDone DP_copy =>
      running (obj σ) = false /\ o (obj σ) = true /\ done_calls (trace σ) = []
  | InDone (DP_test_done snap) =>
      running (obj σ) = false /\ o (obj σ) = true /\ done_calls (trace σ) = [] /\
      Q snap
  | InDone (DP_fn_lock snap | DP_call snap) =>
      running (obj σ) = false /\ o (obj σ) = true /\ done_calls (trace σ) = [] /\
      Q snap /\ OnDone q = true
  | InDone DP_fn_unlock =>
      running (obj σ) = false /\ o (obj σ) = true /\ OnDone q = true /\
      exists snap rt, Q snap /\ done_calls (trace σ) = [EvDone snap rt false]
  | Returned =>
      running (obj σ) = false /\ o (obj σ) = true /\
      if OnDone q
      then exists snap rt, Q snap /\ done_calls (trace σ) = [EvDone snap rt false]
      else done_calls (trace σ) = []
  | _ => False
  end.

(** Where the reporter stands: its ticker runs until it returns. *)
Definition reporter_stage (σ : shared) (t : thread) : Prop :=
  match t with
  | InReporter _ => exists iv, c (obj σ) = TickerRunning iv
  | Returned => c (obj σ) = TickerStopped
  | _ => False
  end.

(** The invariant of one [Done] call running next to the reporter. *)
Definition shutdown_ok (q : Progress) (cfg : config) : Prop :=
  exists td tr,
    cfg.2 = [td; tr] /\
    cur (obj cfg.1) = cur q /\ OnDone (obj cfg.1) = OnDone q /\
    done_stage (fun snap => snap = cur q) q cfg.1 td /\
    reporter_stage cfg.1 tr /\
    close_ok cfg /\ mutex_ok cfg.

Definition not_in_Done (t : thread) : bool :=
  match t with InDone _ => false | _ => true end.








Definition all_returned (cfg : config) : bool := forallb is_Returned cfg.2.

(** Every goroutine that reports has made all its calls. *)
Definition reports_finished (cfg : config) : bool :=
  forallb (fun t => negb (is_worker t)) cfg.2.

Definition nobody_panicked (cfg : config) : bool :=
  forallb (fun t => negb (is_Panicked t)) cfg.2.



(** * Definitions for the further properties *)

(** ** Call sequences *)

(** [p := NewProgress(iv)], then the callers' [p.OnUpdate = ...] and
    [p.OnDone = ...], each done or left out. *)
Definition new_instance (upd dn : bool) (iv : Z) : Progress :=
  mkProgress upd dn Stat_zero 0 TickerNil ChanNil false iv false.

Definition is_Start (k : call) : bool :=
  match k with CStart _ => true | _ => false end.

(** The calls a [Progress] accepts, given whether it is running: [Start]
    when it is not, every other call when it is. *)
Fixpoint protocol (run : bool) (ks : list call) : bool :=
  match ks with
  | [] => true
  | CStart _ :: ks' => negb run && protocol true ks'
  | CDone _ :: ks' => run && protocol false ks'
  | _ :: ks' => run && protocol run ks'
  end.

(** What a reporting call adds to the total. *)
Definition delta_of (k : call) : Stat :=
  match k with
  | CReport s _ => s
  | CReportFile size _ => mkStat 1 0 size 0 0
  | CReportDir _ => mkStat 0 1 0 0 0
  | _ => Stat_zero
  end.

(** The time a call is made at ([Reset] does not look at the clock). *)
Definition time_of (k : call) : Z :=
  match k with
  | CStart now | CReport _ now | CReportFile _ now | CReportDir now | CDone now => now
  | CReset => 0%Z
  end.

Definition file_or_dir (k : call) : bool :=
  match k with CReportFile _ _ | CReportDir _ => true | _ => false end.

Definition is_ReportFile (k : call) : bool :=
  match k with CReportFile _ _ => true | _ => false end.

Definition is_ReportDir (k : call) : bool :=
  match k with CReportDir _ => true | _ => false end.

(** The sizes given to [ReportFile], summed without wrap-around. *)
Definition sizes_reported (ks : list call) : N :=
  foldr (fun k acc => Bytes (delta_of k) + acc) 0 ks.

(** The total an event hands to a callback. *)
Definition snapshot_of (e : event) : option Stat :=
  match e with
  | EvUpdate s _ _ | EvDone s _ _ => Some s
  | _ => None
  end.

Definition is_EvMakeChan (e : event) : bool :=
  match e with EvMakeChan => true | _ => false end.
Definition is_EvNewTicker (e : event) : bool :=
  match e with EvNewTicker _ => true | _ => false end.
Definition is_EvGo (e : event) : bool :=
  match e with EvGo => true | _ => false end.

Definition occurrences {A} (P : A -> bool) (l : list A) : nat :=
  length (List.filter P l).

(** A total that never counted trees or blobs, with every counter
    within [uint64]. *)
Definition plain (s : Stat) : Prop :=
  Trees s = 0 /\ Blobs s = 0 /\ Stat_valid s.

(** What holds of every instance that calls have left behind: a
    positive interval, a total within [uint64] with [Trees] and [Blobs]
    zero, and, while running, guard not fired, channel open and ticker
    running. *)
Definition consistent (q : Progress) : Prop :=
  (0 < d q)%Z /\ Trees (cur q) = 0 /\ Blobs (cur q) = 0 /\ Stat_valid (cur q) /\
  (running q = true ->
   o q = false /\ cancel q = ChanOpen /\ c q = TickerRunning (d q)).

(** Every total an event hands to a callback is plain. *)
Definition plain_events (tr : list event) : Prop :=
  Forall (fun e => forall s, snapshot_of e = Some s -> plain s) tr.

(** ** Pools of goroutines *)

(** Outside both critical sections. *)
Definition outside (t : thread) : bool :=
  negb (in_cur t) && negb (in_fn t).

(** Has the goroutine died unlocking a mutex that was not held? *)
Definition bad_unlock (t : thread) : bool :=
  match t with
  | Panicked msg => String.eqb msg unlock_of_unlocked
  | _ => false
  end.

(** The invariant of any pool: the mutexes are held by those inside, and
    nobody has unlocked a free mutex. *)
Definition locks_ok (cfg : config) : Prop :=
  mutex_ok cfg /\ forallb (fun t => negb (bad_unlock t)) cfg.2 = true.

Definition is_EvTickerStop (e : event) : bool :=
  match e with EvTickerStop => true | _ => false end.

(** The reporter next to one [Done]: its ticker is not stopped before
    it returns, it heads for [Stop] only once the channel is closed, and
    when it has returned the ticker has been stopped once, after the
    close. *)
Definition stop_stage (σ : shared) (t : thread) : Prop :=
  match t with
  | InReporter PP_stop =>
      cancel (obj σ) = ChanClosed /\ occurrences is_EvTickerStop (trace σ) = 0%nat
  | InReporter _ => occurrences is_EvTickerStop (trace σ) = 0%nat
  | Returned =>
      occurrences is_EvTickerStop (trace σ) = 1%nat /\
      exists pre post, trace σ = pre ++ EvTickerStop :: post /\ EvClose ∈ pre
  | _ => False
  end.

Definition reporter_ok (q : Progress) (cfg : config) : Prop :=
  shutdown_ok q cfg /\
  match cfg.2 !! 1%nat with
  | Some t => stop_stage cfg.1 t
  | None => False
  end.

(** A started [Progress] with nothing but its reporter goroutine. *)
Definition reporter_alone (q : Progress) : config :=
  (mkShared q false false (start q) [], [InReporter PP_select]).

(** Is the reporter between a tick and the callback it leads to? *)
Definition mid_pass (pc : reporter_pc) : nat :=
  match pc with
  | PP_lock | PP_copy | PP_unlock _ | PP_test _ | PP_fn_lock _ | PP_call _ => 1
  | _ => 0
  end%nat.

Definition snap_of_pc (pc : reporter_pc) : option Stat :=
  match pc with
  | PP_unlock s | PP_test s | PP_fn_lock s | PP_call s => Some s
  | _ => None
  end.

(** Has the reporter found [OnUpdate] set and is it about to call it? *)
Definition calling (pc : reporter_pc) : bool :=
  match pc with PP_fn_lock _ | PP_call _ => true | _ => false end.

Definition is_tick_update (total : Stat) (e : event) : Prop :=
  exists rt, e = EvUpdate total rt true.

(** The invariant of the reporter on its own, with at most [n] ticks
    delivered so far. *)
Definition ticking (q : Progress) (n : nat) (cfg : config) : Prop :=
  obj cfg.1 = q /\
  exists pc,
    cfg.2 = [InReporter pc] /\ pc <> PP_stop /\
    (forall s, snap_of_pc pc = Some s -> s = cur q) /\
    (calling pc = true -> OnUpdate q = true) /\
    curM cfg.1 = in_cur (InReporter pc) /\ fnM cfg.1 = in_fn (InReporter pc) /\
    Forall (is_tick_update (cur q)) (trace cfg.1) /\
    (OnUpdate q = false -> trace cfg.1 = []) /\
    (length (trace cfg.1) + mid_pass pc <= n)%nat.

Definition ticks (sched : list move) : nat := occurrences tick sched.

(** ** Whole snapshots *)

Definition before_lock (pc : report_pc) : bool :=
  match pc with RP_check | RP_lock => true | _ => false end.

(** The deltas a goroutine has not begun to add: those of the calls to
    come and, until it holds [p.curM], that of the call under way. *)
Definition todo (t : thread) : list Stat :=
  match t with
  | InReport pc s rest => if before_lock pc then s :: rest else rest
  | _ => []
  end.

Definition all_todo (ts : list thread) : list Stat :=
  foldr (fun t acc => todo t ++ acc) [] ts.

(** What the [Add] under way has not yet written to counter [f]. *)
Definition unstored (f : counter) (t : thread) : N :=
  match t with
  | InReport (RP_load g | RP_store g _) s _ =>
      if (counter_index g <=? counter_index f)%nat then get f s else 0
  | _ => 0
  end.

Definition total_unstored (f : counter) (ts : list thread) : N :=
  foldr (fun t acc => unstored f t + acc) 0 ts.

(** The copy of the total a goroutine took and carries to a callback. *)
Definition snap_held (t : thread) : option Stat :=
  match t with
  | InReport (RP_unlock s | RP_test s | RP_fn_lock s | RP_call s) _ _ => Some s
  | InReporter (PP_unlock s | PP_test s | PP_fn_lock s | PP_call s) => Some s
  | _ => None
  end.

(** A total made of whole deltas: [base] plus, in each counter, the sum
    of some of the deltas [all], each taken at most as often as it
    occurs there; [Trees] and [Blobs] as in [base]. *)
Definition whole (base : Stat) (all : list Stat) (s : Stat) : Prop :=
  exists ds,
    ds ⊆+ all /\
    (forall f, get f s = wrap64 (get f base + sum_counter f ds)) /\
    Trees s = Trees base /\ Blobs s = Blobs base.

(** The invariant behind whole snapshots: the deltas split into those
    applied and those still to do; the total, with what the [Add] under
    way has yet to write, is [base] plus the applied ones; every copy
    held or handed to a callback is whole. *)
Definition whole_ok (base : Stat) (dss : list (list Stat)) (cfg : config) : Prop :=
  report_ok (fun f => wrap64 (get f base + sum_all f dss))
            (Trees base, Blobs base) cfg /\
  (exists applied,
     applied ++ all_todo cfg.2 ≡ₚ concat dss /\
     forall f, wrap64 (get f (cur (obj cfg.1)) + total_unstored f cfg.2)
               = wrap64 (get f base + sum_counter f applied)) /\
  (forall i t s, cfg.2 !! i = Some t -> snap_held t = Some s ->
     whole base (concat dss) s) /\
  (forall e s, e ∈ trace cfg.1 -> snapshot_of e = Some s ->
     whole base (concat dss) s).

(** ** One producer *)

(** The total after the deltas [ds] have been added to [base]. *)
Definition total_after (base : Stat) (ds : list Stat) : Stat :=
  mkStat (wrap64 (Files base + sum_counter CFiles ds))
         (wrap64 (Dirs base + sum_counter CDirs ds))
         (wrap64 (Bytes base + sum_counter CBytes ds))
         (Trees base) (Blobs base).

(** The totals [Add] produces when the deltas [ds] are added to [base]
    one after the other. *)
Fixpoint running_totals (base : Stat) (ds : list Stat) : list Stat :=
  match ds with
  | [] => []
  | s :: ds' => Add base s :: running_totals (Add base s) ds'
  end.

(** The totals after the first delta, the first two, ..., the first [m]. *)
Definition totals_upto (base : Stat) (ds : list Stat) (m : nat) : list Stat :=
  map (fun k => total_after base (take k ds)) (seq 1 m).

(** The totals handed to [OnUpdate] by calls of [Report], in order, and
    the total a tick hands to it. *)
Definition own_total (e : event) : option Stat :=
  match e with EvUpdate s _ false => Some s | _ => None end.

Definition own_totals (tr : list event) : list Stat := omap own_total tr.

Definition tick_total (e : event) : option Stat :=
  match e with EvUpdate s _ true => Some s | _ => None end.

(** Has the goroutine added the delta of the call under way, or begun
    to, and not yet called [OnUpdate] for it? *)
Definition awaiting (t : thread) : nat :=
  match t with
  | InReport (RP_check | RP_lock | RP_fn_unlock) _ _ => 0
  | InReport _ _ _ => 1
  | _ => 0
  end.

(** Is the goroutine about to call [OnUpdate], having found it set? *)
Definition found_OnUpdate (t : thread) : bool :=
  match t with
  | InReport (RP_fn_lock _ | RP_call _) _ _ => true
  | _ => false
  end.

Definition reports_or_returned (t : thread) : bool :=
  match t with InReport _ _ _ | Returned => true | _ => false end.

(** The invariant of one goroutine reporting [ds] next to the reporter:
    the deltas [pre] it has begun to add are the first of [ds], the
    total with what the [Add] under way has yet to write is [base] plus
    [pre], the copy it holds is that total, the reporter holds the total
    after some first deltas, and so do the callbacks made so far. *)
Definition producer_ok (upd : bool) (base : Stat) (ds : list Stat) (cfg : config)
  : Prop :=
  report_ok (fun f => wrap64 (get f base + sum_all f [ds]))
            (Trees base, Blobs base) cfg /\
  OnUpdate (obj cfg.1) = upd /\
  exists pc tw pre,
    cfg.2 = [InReporter pc; tw] /\ reports_or_returned tw = true /\
    ds = pre ++ todo tw /\
    (awaiting tw <= length pre)%nat /\
    (found_OnUpdate tw = true -> upd = true) /\
    (forall f, wrap64 (get f (cur (obj cfg.1)) + unstored f tw)
               = wrap64 (get f base + sum_counter f pre)) /\
    (forall s, snap_held tw = Some s -> s = total_after base pre) /\
    (forall s, snap_held (InReporter pc) = Some s ->
       exists j, s = total_after base (take j ds)) /\
    own_totals (trace cfg.1)
      = (if upd then totals_upto base ds (length pre - awaiting tw) else []) /\
    (forall e s, e ∈ trace cfg.1 -> tick_total e = Some s ->
       exists j, s = total_after base (take j ds)).

(** ** Formatting *)

(** The value [fmt_f3 m k] prints, in thousandths: [m / 2^k] rounded to
    three decimals. *)
Definition thousandths (m k : N) : N := round_half_even (1000 * m) (2 ^ k).

(** How [fmt_f3] prints a number of thousandths. *)
Definition print_thousandths (t : N) : string :=
  fmt_d (t / 1000) +:+ "." +:+
  fmt_d (t mod 1000 / 100) +:+ fmt_d (t mod 1000 / 10 mod 10) +:+
  fmt_d (t mod 1000 mod 10).

(** * Theorems, part 1 *)

Section Arithmetic.

Lemma uint64_modulus_pos : uint64_modulus <> 0.
Proof. discriminate. Qed.

Lemma wrap64_small n : n < uint64_modulus -> wrap64 n = n.
Proof. apply N.mod_small. Qed.

Lemma wrap64_lt n : wrap64 n < uint64_modulus.
Proof. apply N.mod_lt, uint64_modulus_pos. Qed.

Lemma wrap64_add_l a b : wrap64 (wrap64 a + b) = wrap64 (a + b).
Proof. apply N.Div0.add_mod_idemp_l. Qed.

Lemma wrap64_add_r a b : wrap64 (a + wrap64 b) = wrap64 (a + b).
Proof. apply N.Div0.add_mod_idemp_r. Qed.

Lemma add64_assoc a b c : add64 (add64 a b) c = add64 a (add64 b c).
Proof.
  unfold add64. rewrite wrap64_add_l, wrap64_add_r. f_equal. lia.
Qed.

Lemma add64_comm a b : add64 a b = add64 b a.
Proof. unfold add64. f_equal. lia. Qed.

Lemma add64_swap a b c : add64 (add64 a b) c = add64 (add64 a c) b.
Proof.
  rewrite !add64_assoc. f_equal. apply add64_comm.
Qed.

End Arithmetic.

(** ** What each method does to a non-nil receiver *)

Ltac run_method q :=
  destruct q as [upd dn total st tk ch fired iv r];
  cbn [running o cancel d OnUpdate OnDone cur start c] in *; subst;
  try reflexivity.

Lemma Report_running q s now :
  running q = true ->
  Report s now (Some q) =
    Ok (Some (set_cur (Add (cur q) s) q),
        if OnUpdate q
        then [EvUpdate (Add (cur q) s) (Since now (start q)) false]
        else []).
Proof. intros Hr. run_method q. by destruct upd. Qed.

Lemma Report_stopped q s now :
  running q = false ->
  Report s now (Some q) = Panic "reporting in a non-running Progress".
Proof. intros Hr. run_method q. Qed.

Lemma Reset_running q :
  running q = true -> Reset (Some q) = Ok (Some (set_cur Stat_zero q), []).
Proof. intros Hr. run_method q. Qed.

Lemma Reset_stopped q :
  running q = false -> Reset (Some q) = Panic "resetting a non-running Progress".
Proof. intros Hr. run_method q. Qed.

Lemma Done_stopped q now :
  running q = false ->
  Done now (Some q) = Panic "Done() called on non-running Progress".
Proof. intros Hr. run_method q. Qed.

Lemma Done_running q now :
  running q = true -> o q = false -> cancel q = ChanOpen ->
  Done now (Some q) =
    Ok (Some (stopped_by_Done q),
        EvClose ::
        if OnDone q then [EvDone (cur q) (Since now (start q)) false] else []).
Proof. intros Hr Ho Hc. run_method q. by destruct dn. Qed.

Lemma Start_running q now :
  running q = true ->
  Start now (Some q) = Panic "truing to reset a running Progress".
Proof. intros Hr. run_method q. Qed.

Lemma Start_stopped q now :
  running q = false -> (0 < d q)%Z ->
  Start now (Some q) =
    Ok (Some (started now q), [EvMakeChan; EvNewTicker (d q); EvGo]).
Proof.
  intros Hr Hd. run_method q.
  unfold Start, on_receiver, Start_body, Reset_body, NewTicker, bind, field, when, assign, emit.
  cbn. destruct (Z.leb_spec iv 0) as [Hle|_]; [lia|]. reflexivity.
Qed.

Lemma Start_stopped_bad_interval q now :
  running q = false -> (d q <= 0)%Z ->
  Start now (Some q) = Panic "non-positive interval for NewTicker".
Proof.
  intros Hr Hd. run_method q.
  unfold Start, on_receiver, Start_body, Reset_body, NewTicker, bind, field, when, assign, emit.
  cbn. destruct (Z.leb_spec iv 0) as [_|Hlt]; [reflexivity|lia].
Qed.

(** A [Start] that returns leaves exactly [started]. *)
Lemma Start_Ok_inv q now r tr :
  Start now (Some q) = Ok (r, tr) ->
  running q = false /\ (0 < d q)%Z /\ r = Some (started now q).
Proof.
  intros H. destruct (running q) eqn:Hr.
  - rewrite Start_running in H by done. discriminate.
  - destruct (Z.leb_spec (d q) 0) as [Hle|Hlt].
    + rewrite Start_stopped_bad_interval in H by done. discriminate.
    + rewrite Start_stopped in H by done. by inversion H.
Qed.

(** ** Sequences of [Report] calls *)

Lemma execs_app ks1 ks2 p :
  execs (ks1 ++ ks2) p =
    match execs ks1 p with
    | Panic msg => Panic msg
    | Ok (p1, t1) =>
        match execs ks2 p1 with
        | Panic msg => Panic msg
        | Ok (p2, t2) => Ok (p2, t1 ++ t2)
        end
    end.
Proof.
  revert p. induction ks1 as [|k ks1 IH]; intros p; cbn [execs app].
  - by destruct (execs ks2 p) as [[p2 t2]|msg].
  - destruct (exec k p) as [[p1 t1]|msg]; [|done].
    rewrite IH. destruct (execs ks1 p1) as [[p2 t2]|msg]; [|done].
    destruct (execs ks2 p2) as [[p3 t3]|msg]; [|done].
    by rewrite app_assoc.
Qed.

Lemma Stat_zero_valid : Stat_valid Stat_zero.
Proof. repeat split. Qed.

Lemma Add_valid s other : Trees s < uint64_modulus -> Blobs s < uint64_modulus ->
  Stat_valid (Add s other).
Proof.
  intros Ht Hb. unfold Stat_valid, Add, add64; cbn [Files Dirs Bytes Trees Blobs].
  repeat split; try apply wrap64_lt; done.
Qed.

(** From a running receiver every [Report] of the sequence returns, and
    the total moves by the sum of the deltas, in [uint64] arithmetic. *)
Lemma reports_running ds : forall q,
  running q = true -> Stat_valid (cur q) ->
  exists q' tr,
    execs (reports ds) (Some q) = Ok (Some q', tr) /\
    running q' = true /\ Stat_valid (cur q') /\
    Files (cur q') = wrap64 (Files (cur q) + sum_field Files ds) /\
    Dirs (cur q') = wrap64 (Dirs (cur q) + sum_field Dirs ds) /\
    Bytes (cur q') = wrap64 (Bytes (cur q) + sum_field Bytes ds) /\
    Trees (cur q') = Trees (cur q) /\
    Blobs (cur q') = Blobs (cur q).
Proof.
  induction ds as [|[s now] ds IH]; intros q Hr Hv.
  - exists q, []. cbn [reports map execs sum_field foldr].
    rewrite !N.add_0_r. destruct Hv as (?&?&?&?&?).
    rewrite !wrap64_small by done. done.
  - cbn [reports map execs exec fst snd].
    rewrite Report_running by done.
    set (q1 := set_cur (Add (cur q) s) q).
    destruct (IH q1) as (q' & tr & He & Hr' & Hv' & HF & HD & HB & HT & HL).
    { by destruct q. }
    { destruct q; cbn. destruct Hv as (?&?&?&?&?). by apply Add_valid. }
    fold (reports ds). rewrite He. eexists _, _. split; [reflexivity|].
    split; [done|]. split; [done|].
    rewrite HF, HD, HB, HT, HL.
    destruct q; cbn [q1 set_cur cur Add Files Dirs Bytes Trees Blobs sum_field foldr fst].
    fold (sum_field Files ds) (sum_field Dirs ds) (sum_field Bytes ds).
    unfold add64. rewrite !wrap64_add_l.
    repeat split; f_equal; lia.
Qed.

(** C1.  Take an instance whose total has just been zeroed, by a
    [Start] or by a [Reset] that returned.  After any sequence of
    [Report] calls with deltas [d1..dn], every call has returned and
    [Current] returns the field-wise sum of the deltas in [Files], [Dirs]
    and [Bytes] (the sums are taken in [uint64], that is modulo [2^64],
    and are the exact sums when these fit in 64 bits), while [Trees] and
    [Blobs] still hold the zero that [Reset] stored, whatever the deltas
    carry in these two fields. *)
Theorem Report_sequence_sums
    (q0 q : Progress) (k : call) (tr0 : list event) (ds : list (Stat * Z)) :
  zeroes_total k = true ->
  exec k (Some q0) = Ok (Some q, tr0) ->
  exists q' tr s,
    execs (reports ds) (Some q) = Ok (Some q', tr) /\
    Current (Some q') = Ok s /\
    s = mkStat (wrap64 (sum_field Files ds)) (wrap64 (sum_field Dirs ds))
               (wrap64 (sum_field Bytes ds)) 0 0 /\
    (sum_field Files ds < uint64_modulus -> Files s = sum_field Files ds) /\
    (sum_field Dirs ds < uint64_modulus -> Dirs s = sum_field Dirs ds) /\
    (sum_field Bytes ds < uint64_modulus -> Bytes s = sum_field Bytes ds).
Proof.
  intros Hk He.
  assert (Hq : running q = true /\ cur q = Stat_zero).
  { destruct k as [now| | | | |]; try discriminate Hk; cbn [exec] in He.
    - apply Start_Ok_inv in He as (_ & _ & [= ->]). done.
    - destruct (running q0) eqn:Hr.
      + rewrite Reset_running in He by done. injection He as <- _. by destruct q0.
      + by rewrite Reset_stopped in He. }
  destruct Hq as [Hr Hz].
  destruct (reports_running ds q Hr)
    as (q' & tr & He' & _ & _ & HF & HD & HB & HT & HL).
  { rewrite Hz. apply Stat_zero_valid. }
  exists q', tr, (cur q').
  split; [exact He'|]. split; [reflexivity|].
  assert (Hs : cur q' =
    mkStat (wrap64 (sum_field Files ds)) (wrap64 (sum_field Dirs ds))
           (wrap64 (sum_field Bytes ds)) 0 0).
  { rewrite Hz in HF, HD, HB, HT, HL.
    cbn [Stat_zero Files Dirs Bytes Trees Blobs] in *.
    rewrite N.add_0_l in HF, HD, HB.
    destruct (cur q'); cbn in *; congruence. }
  split; [exact Hs|]. rewrite Hs; cbn [Files Dirs Bytes].
  repeat split; apply wrap64_small.
Qed.

Lemma Report_sequence_sums_witness :
  exists q' tr s,
    execs (reports [(mkStat 1 0 10 7 7, 1%Z); (mkStat 0 1 0 0 0, 2%Z);
                    (mkStat 2 0 32 0 9, 3%Z)])
          (Some (started 0 (mkProgress true true Stat_zero 0 TickerNil ChanNil false 1 false)))
      = Ok (Some q', tr) /\
    Current (Some q') = Ok s /\ s = mkStat 3 1 42 0 0.
Proof.
  destruct (Report_sequence_sums
    (mkProgress true true Stat_zero 0 TickerNil ChanNil false 1 false)
    (started 0 (mkProgress true true Stat_zero 0 TickerNil ChanNil false 1 false))
    (CStart 0) [EvMakeChan; EvNewTicker 1; EvGo]
    [(mkStat 1 0 10 7 7, 1%Z); (mkStat 0 1 0 0 0, 2%Z); (mkStat 2 0 32 0 9, 3%Z)]
    eq_refl eq_refl) as (q' & tr & s & He & Hc & Hs & _).
  exists q', tr, s. split; [exact He|]. split; [exact Hc|]. exact Hs.
Defined.

(** ** Formatting *)

(** C2 (as amended).  [Stat{Bytes: 500}] is scaled to ["500B"],
    [Stat{Bytes: 2048}] to ["2.000 KiB"] and [Stat{Bytes: 1<<30 + 1}] to
    ["1.000 GiB"]; every unit boundary is a strict greater-than, so a
    count of exactly [1<<10], [1<<20], [1<<30] or [1<<40] is printed in
    the unit below: [1<<30] gives ["1024.000 MiB"].  [String] wraps the
    scaled count as ["Stat(F files, D dirs, ...)"]. *)
Theorem byte_str_examples :
  byte_str (mkStat 0 0 500 0 0) = "500B" /\
  byte_str (mkStat 0 0 2048 0 0) = "2.000 KiB" /\
  byte_str (mkStat 0 0 (2 ^ 30 + 1) 0 0) = "1.000 GiB" /\
  byte_str (mkStat 0 0 (2 ^ 30) 0 0) = "1024.000 MiB" /\
  byte_str (mkStat 0 0 (2 ^ 10) 0 0) = "1024B" /\
  byte_str (mkStat 0 0 (2 ^ 20) 0 0) = "1024.000 KiB" /\
  byte_str (mkStat 0 0 (2 ^ 40) 0 0) = "1024.000 GiB" /\
  byte_str (mkStat 0 0 (2 ^ 40 + 1) 0 0) = "1.000 TiB" /\
  Stat_String (mkStat 0 0 500 0 0) = "Stat(0 files, 0 dirs, 500B)" /\
  Stat_String (mkStat 3 4 2048 0 0) = "Stat(3 files, 4 dirs, 2.000 KiB)" /\
  Stat_String (mkStat 0 0 (2 ^ 30 + 1) 0 0) = "Stat(0 files, 0 dirs, 1.000 GiB)" /\
  Stat_String (mkStat 0 0 (2 ^ 30) 0 0) = "Stat(0 files, 0 dirs, 1024.000 MiB)".
Proof. repeat split; vm_compute; reflexivity. Qed.

(** C2, the claim as written fails: a count of exactly [1<<30] bytes is
    not printed in KiB. *)
Lemma byte_str_two_pow_30_not_KiB :
  ~ exists x : string, byte_str (mkStat 0 0 (2 ^ 30) 0 0) = x +:+ " KiB".
Proof.
  intros [x Hx].
  assert (Hv : byte_str (mkStat 0 0 (2 ^ 30) 0 0) = "1024.000 MiB")
    by (vm_compute; reflexivity).
  rewrite Hv in Hx. clear Hv.
  do 12 (destruct x as [|? x]; cbn in Hx; [discriminate Hx|];
        injection Hx as _ Hx).
  destruct x; discriminate Hx.
Qed.

(** ** Addition of totals *)

(** C4.  [Add] adds: each of [Files], [Dirs] and [Bytes] of the result
    is the sum of the receiver's and the argument's field, reduced
    modulo 2^64 as a [uint64] is.  Hence, over these three fields,
    adding [b] then [c] into [a] gives what adding [c] then [b] gives,
    and what adding the combination of [b] and [c] gives; adding [b]
    into [a] gives what adding [a] into [b] gives.  [Trees] and [Blobs]
    of the receiver are left as they were, whatever the argument
    holds. *)
Theorem Add_commutative_associative (a b c : Stat) :
  Files (Add a b) = ((Files a + Files b) mod 2 ^ 64)%N /\
  Dirs (Add a b) = ((Dirs a + Dirs b) mod 2 ^ 64)%N /\
  Bytes (Add a b) = ((Bytes a + Bytes b) mod 2 ^ 64)%N /\
  same_counts (Add (Add a b) c) (Add (Add a c) b) /\
  same_counts (Add (Add a b) c) (Add a (Add b c)) /\
  same_counts (Add a b) (Add b a) /\
  Trees (Add a b) = Trees a /\ Blobs (Add a b) = Blobs a.
Proof.
  do 3 (split; [reflexivity|]).
  unfold same_counts, Add; cbn [Files Dirs Bytes Trees Blobs].
  repeat split;
    first [ apply add64_swap | apply add64_assoc | apply add64_comm ].
Qed.

(** ** The nil receiver *)

(** C3, what the code does.  [Start], [Report], [ReportFile], [ReportDir],
    [Reset] and [Done] return at once on a nil receiver, changing nothing
    and calling nothing; [Current] does not test its receiver and
    dereferences nil. *)
Theorem nil_receiver (now : Z) (s : Stat) (size : N) :
  Start now None = Ok (None, []) /\
  Report s now None = Ok (None, []) /\
  ReportFile size now None = Ok (None, []) /\
  ReportDir now None = Ok (None, []) /\
  Reset None = Ok (None, []) /\
  Done now None = Ok (None, []) /\
  Current None = Panic nil_dereference.
Proof. repeat split. Qed.

(** ** [Current] *)

(** C10.  On a non-nil receiver [Current] returns the accumulated total
    in every lifecycle state, without panicking: before any [Start] it
    returns the zero total of a new instance, and after a [Done] that
    returned it returns the total that was accumulated when [Done] was
    called. *)
Theorem Current_never_panics :
  (forall q : Progress, Current (Some q) = Ok (cur q)) /\
  (forall iv : Z, Current (NewProgress iv) = Ok Stat_zero) /\
  (forall (q : Progress) now p' tr,
     Done now (Some q) = Ok (p', tr) -> Current p' = Ok (cur q)).
Proof.
  split; [done|]. split; [done|].
  intros q now p' tr H.
  destruct q as [upd dn total st tk ch fired iv r].
  destruct r, fired, ch, dn; cbn in H; try discriminate H;
    injection H as <- _; reflexivity.
Qed.

Lemma Current_never_panics_witness :
  Current (Some (stopped_by_Done
    (set_cur (mkStat 1 0 10 0 0)
       (started 0 (mkProgress false true Stat_zero 0 TickerNil ChanNil false 1 false)))))
  = Ok (mkStat 1 0 10 0 0).
Proof.
  exact (proj2 (proj2 Current_never_panics)
           (set_cur (mkStat 1 0 10 0 0)
              (started 0 (mkProgress false true Stat_zero 0 TickerNil ChanNil false 1 false)))
           5%Z _ _ eq_refl).
Defined.

(** ** Lifecycle *)

(** C6.  On a non-nil receiver that is not running, as every instance is
    before its first [Start], each of [Report], [ReportFile], [ReportDir],
    [Reset] and [Done] panics. *)
Theorem not_running_calls_panic (q : Progress) (s : Stat) (size : N) (now : Z) :
  running q = false ->
  Report s now (Some q) = Panic "reporting in a non-running Progress" /\
  ReportFile size now (Some q) = Panic "reporting in a non-running Progress" /\
  ReportDir now (Some q) = Panic "reporting in a non-running Progress" /\
  Reset (Some q) = Panic "resetting a non-running Progress" /\
  Done now (Some q) = Panic "Done() called on non-running Progress" /\
  (forall iv, exists q0, NewProgress iv = Some q0 /\ running q0 = false).
Proof.
  intros Hr. unfold ReportFile, ReportDir.
  rewrite !Report_stopped, Reset_stopped, Done_stopped by done.
  repeat split. intros iv. by eexists.
Qed.

Lemma not_running_calls_panic_witness :
  NewProgress 1 = Some (mkProgress false false Stat_zero 0 TickerNil ChanNil false 1 false) /\
  Report (mkStat 0 0 1 0 0) 3 (NewProgress 1) = Panic "reporting in a non-running Progress" /\
  Reset (NewProgress 1) = Panic "resetting a non-running Progress" /\
  Done 3 (NewProgress 1) = Panic "Done() called on non-running Progress".
Proof.
  split; [reflexivity|].
  destruct (not_running_calls_panic
              (mkProgress false false Stat_zero 0 TickerNil ChanNil false 1 false)
              (mkStat 0 0 1 0 0) 0 3 eq_refl) as (HR & _ & _ & HS & HD & _).
  split; [exact HR|]. split; [exact HS|exact HD].
Defined.

(** A running receiver stays running through every call but [Done]; the
    only such call that can fail is another [Start]. *)
Lemma execs_no_Done ks : forall q,
  running q = true -> forallb (fun k => negb (is_Done k)) ks = true ->
  execs ks (Some q) = Panic "truing to reset a running Progress" \/
  exists q' tr, execs ks (Some q) = Ok (Some q', tr) /\ running q' = true.
Proof.
  induction ks as [|k ks IH]; intros q Hr Hks.
  - right. by exists q, [].
  - cbn [forallb] in Hks. apply andb_prop in Hks as [Hk Hks].
    assert (Hstep : exec k (Some q) = Panic "truing to reset a running Progress" \/
                    exists q1 t1, exec k (Some q) = Ok (Some q1, t1) /\ running q1 = true).
    { destruct k as [now|s now|size now|now| |now]; cbn [exec]; [ | | | | |done].
      - left. by apply Start_running.
      - right. rewrite Report_running by done. eexists _, _. split; [done|]. by destruct q.
      - right. unfold ReportFile. rewrite Report_running by done.
        eexists _, _. split; [done|]. by destruct q.
      - right. unfold ReportDir. rewrite Report_running by done.
        eexists _, _. split; [done|]. by destruct q.
      - right. rewrite Reset_running by done. eexists _, _. split; [done|]. by destruct q. }
    cbn [execs]. destruct Hstep as [-> | (q1 & t1 & -> & Hr1)]; [by left|].
    destruct (IH q1 Hr1 Hks) as [-> | (q' & tr & -> & Hr')]; [by left|].
    right. by eexists _, _.
Qed.

(** C7.  When [Start] has returned on a non-nil receiver, [Current]
    returns the zero total, and so it does after a [Reset] that follows;
    and whatever calls other than [Done] are made next, a further
    [Start] panics: the calls up to it have left the instance running,
    and the only one of them that can fail is itself a second [Start]. *)
Theorem Start_twice_panics (q : Progress) (now : Z) p1 tr1 :
  Start now (Some q) = Ok (p1, tr1) ->
  Current p1 = Ok Stat_zero /\
  (exists p2 tr2, Reset p1 = Ok (p2, tr2) /\ Current p2 = Ok Stat_zero) /\
  Start now p1 = Panic "truing to reset a running Progress" /\
  (forall ks now',
     forallb (fun k => negb (is_Done k)) ks = true ->
     execs (ks ++ [CStart now']) p1 = Panic "truing to reset a running Progress").
Proof.
  intros H. apply Start_Ok_inv in H as (Hr & Hd & ->).
  split; [reflexivity|].
  split; [by eexists _, _|].
  split; [by apply Start_running|].
  intros ks now' Hks. rewrite execs_app.
  destruct (execs_no_Done ks (started now q) eq_refl Hks)
    as [-> | (q' & tr & -> & Hr')]; [done|].
  cbn [execs exec]. by rewrite Start_running.
Qed.

Lemma Start_twice_panics_witness :
  execs ([CReportFile 10 1; CReset; CReportDir 2] ++ [CStart 3])
        (Some (started 0 (mkProgress false false Stat_zero 0 TickerNil ChanNil false 1 false)))
    = Panic "truing to reset a running Progress".
Proof.
  exact (proj2 (proj2 (proj2 (Start_twice_panics
           (mkProgress false false Stat_zero 0 TickerNil ChanNil false 1 false)
           0 _ _ eq_refl)))
         [CReportFile 10 1; CReset; CReportDir 2] 3%Z eq_refl).
Defined.

(** C5, the claim as written fails: an instance that was started and
    stopped by [Done] is started again by [Start], which returns. *)
Lemma Start_after_Done_returns :
  exists p1 t1 q2,
    execs [CStart 0; CReportFile 10 1; CDone 5] (NewProgress 1) = Ok (p1, t1) /\
    Start 7 p1 = Ok (Some q2, [EvMakeChan; EvNewTicker 1; EvGo]) /\
    running q2 = true /\
    ~ exists msg, Start 7 p1 = Panic msg.
Proof.
  set (q1 := stopped_by_Done
                (set_cur (mkStat 1 0 10 0 0)
                   (started 0 (mkProgress false false Stat_zero 0 TickerNil
                                          ChanNil false 1 false)))).
  assert (Hs : Start 7 (Some q1) =
               Ok (Some (started 7 q1), [EvMakeChan; EvNewTicker 1; EvGo]))
    by (vm_compute; reflexivity).
  exists (Some q1), [EvMakeChan; EvNewTicker 1; EvGo; EvClose], (started 7 q1).
  split; [vm_compute; reflexivity|]. split; [exact Hs|].
  split; [reflexivity|]. intros [msg H]. rewrite Hs in H. discriminate H.
Qed.

(** C5 (as amended).  After a [Done] that returned, the instance is
    stopped: [Report], [ReportFile], [ReportDir] (and [Reset] and [Done])
    panic.  The stopped state is left by [Start]: on a stopped instance
    with a positive interval [Start] returns, having re-armed the
    one-shot guard, made a new open cancel channel, zeroed the total and
    set the instance running. *)
Theorem stopped_until_restarted (q : Progress) (now : Z) p1 tr1 :
  Done now (Some q) = Ok (p1, tr1) ->
  (forall s size t,
     Report s t p1 = Panic "reporting in a non-running Progress" /\
     ReportFile size t p1 = Panic "reporting in a non-running Progress" /\
     ReportDir t p1 = Panic "reporting in a non-running Progress" /\
     Reset p1 = Panic "resetting a non-running Progress" /\
     Done t p1 = Panic "Done() called on non-running Progress") /\
  (forall t, (0 < d q)%Z ->
     exists q2,
       Start t p1 = Ok (Some q2, [EvMakeChan; EvNewTicker (d q); EvGo]) /\
       running q2 = true /\ cur q2 = Stat_zero /\
       o q2 = false /\ cancel q2 = ChanOpen).
Proof.
  intros H.
  assert (Hp : exists q1, p1 = Some q1 /\ running q1 = false /\ d q1 = d q).
  { destruct q as [upd dn total st tk ch fired iv r].
    destruct r, fired, ch, dn; cbn in H; try discriminate H;
      injection H as <- _; by eexists. }
  destruct Hp as (q1 & -> & Hr & Hd). split.
  - intros s size t. unfold ReportFile, ReportDir.
    by rewrite !Report_stopped, Reset_stopped, Done_stopped.
  - intros t Hpos. exists (started t q1).
    rewrite Start_stopped by (rewrite ?Hd; done). by rewrite Hd.
Qed.

Lemma stopped_until_restarted_witness :
  (Report (mkStat 0 0 1 0 0) 6
     (Some (stopped_by_Done
        (started 0 (mkProgress false false Stat_zero 0 TickerNil ChanNil false 1 false))))
   = Panic "reporting in a non-running Progress") /\
  exists q2,
    Start 7 (Some (stopped_by_Done
        (started 0 (mkProgress false false Stat_zero 0 TickerNil ChanNil false 1 false))))
    = Ok (Some q2, [EvMakeChan; EvNewTicker 1; EvGo]) /\ running q2 = true.
Proof.
  destruct (stopped_until_restarted
    (started 0 (mkProgress false false Stat_zero 0 TickerNil ChanNil false 1 false))
    5 _ _ eq_refl) as [Hrep Hstart].
  split.
  - exact (proj1 (Hrep (mkStat 0 0 1 0 0) 0 6%Z)).
  - destruct (Hstart 7%Z eq_refl) as (q2 & Hs & Hr & _).
    exists q2. split; [exact Hs|exact Hr].
Defined.

(** * Theorems, part 2 *)

(** ** Counting goroutines *)

Section Pools.

Implicit Types (ts : list thread) (t : thread) (i j : nat).

Lemma count_cons P t ts :
  count P (t :: ts) = (held (P t) + count P ts)%nat.
Proof. unfold count. cbn [List.filter]. by destruct (P t). Qed.

Lemma count_insert P ts : forall i t t',
  ts !! i = Some t ->
  (count P (<[i:=t']> ts) + held (P t) = count P ts + held (P t'))%nat.
Proof.
  induction ts as [|u ts IH]; intros [|i] t t' Hi; try discriminate.
  - injection Hi as ->. cbn [insert list_insert]. rewrite !count_cons. lia.
  - change (<[S i:=t']> (u :: ts)) with (u :: <[i:=t']> ts).
    rewrite !count_cons. specialize (IH i t t' Hi). lia.
Qed.

Lemma count_lookup P ts : forall i t,
  ts !! i = Some t -> P t = true -> (1 <= count P ts)%nat.
Proof.
  induction ts as [|u ts IH]; intros [|i] t Hi HP; try discriminate.
  - injection Hi as ->. rewrite count_cons, HP. cbn. lia.
  - rewrite count_cons. specialize (IH i t Hi HP). lia.
Qed.

Lemma count_two P ts : forall i j t t',
  i <> j -> ts !! i = Some t -> ts !! j = Some t' ->
  P t = true -> P t' = true -> (2 <= count P ts)%nat.
Proof.
  induction ts as [|u ts IH]; intros [|i] [|j] t t' Hij Hi Hj HP HP';
    try discriminate; try done; rewrite count_cons.
  - injection Hi as ->. rewrite HP.
    pose proof (count_lookup P ts j t' Hj HP'). cbn. lia.
  - injection Hj as ->. rewrite HP'.
    pose proof (count_lookup P ts i t Hi HP). cbn. lia.
  - assert (i <> j) by congruence.
    specialize (IH i j t t' ltac:(done) Hi Hj HP HP'). lia.
Qed.

Lemma count_pos P ts :
  (1 <= count P ts)%nat -> exists i t, ts !! i = Some t /\ P t = true.
Proof.
  induction ts as [|u ts IH]; rewrite ?count_cons.
  - cbn. lia.
  - destruct (P u) eqn:HP.
    + intros _. by exists 0%nat, u.
    + cbn [held]. intros H. destruct (IH ltac:(lia)) as (i & t & Hi & Ht).
      by exists (S i), t.
Qed.

Lemma total_pending_insert f ts : forall i t t',
  ts !! i = Some t ->
  total_pending f (<[i:=t']> ts) + pending f t = total_pending f ts + pending f t'.
Proof.
  induction ts as [|u ts IH]; intros [|i] t t' Hi; try discriminate.
  - injection Hi as ->. cbn [insert list_insert total_pending foldr]. lia.
  - change (<[S i:=t']> (u :: ts)) with (u :: <[i:=t']> ts).
    cbn [total_pending foldr]. specialize (IH i t t' Hi).
    unfold total_pending in IH. lia.
Qed.

Lemma total_rank_insert ts : forall i t t',
  ts !! i = Some t ->
  (total_rank (<[i:=t']> ts) + rank t = total_rank ts + rank t')%nat.
Proof.
  induction ts as [|u ts IH]; intros [|i] t t' Hi; try discriminate.
  - injection Hi as ->. cbn [insert list_insert total_rank foldr]. lia.
  - change (<[S i:=t']> (u :: ts)) with (u :: <[i:=t']> ts).
    cbn [total_rank foldr]. specialize (IH i t t' Hi).
    unfold total_rank in IH. lia.
Qed.

Lemma forallb_insert (P : thread -> bool) ts i t' :
  forallb P ts = true -> P t' = true -> forallb P (<[i:=t']> ts) = true.
Proof.
  revert i. induction ts as [|u ts IH]; intros i Hts Ht'; [done|].
  cbn [forallb] in Hts. apply andb_prop in Hts as [Hu Hts].
  destruct i as [|i].
  - change (<[0%nat:=t']> (u :: ts)) with (t' :: ts).
    cbn [forallb]. by rewrite Ht', Hts.
  - change (<[S i:=t']> (u :: ts)) with (u :: <[i:=t']> ts).
    cbn [forallb]. rewrite Hu. by apply IH.
Qed.

Lemma forallb_lookup (P : thread -> bool) ts i t :
  forallb P ts = true -> ts !! i = Some t -> P t = true.
Proof.
  revert i. induction ts as [|u ts IH]; intros i Hts Hi; [done|].
  cbn [forallb] in Hts. apply andb_prop in Hts as [Hu Hts].
  destruct i as [|i]; [by injection Hi as <-|]. by apply (IH i).
Qed.

End Pools.

#[local] Arguments count : simpl never.
#[local] Arguments total_pending : simpl never.
#[local] Arguments total_rank : simpl never.

(** ** One move *)

(** What [step] returning [Some] means. *)
Lemma step_Some mv cfg cfg' :
  step mv cfg = Some cfg' ->
  exists t σ' t',
    cfg.2 !! who mv = Some t /\
    thread_step (tick mv) (advance (elapse mv) cfg.1) t = Some (σ', t') /\
    cfg' = (σ', <[who mv := t']> cfg.2).
Proof.
  unfold step. destruct (cfg.2 !! who mv) as [t|]; [|done].
  destruct (thread_step _ _ t) as [[σ' t']|] eqn:Hts; [|done].
  intros [= <-]. exists t, σ', t'. by rewrite Hts.
Qed.

(** Case analysis on the statement a goroutine executes. *)
Ltac thread_cases H :=
  match type of H with
  | thread_step _ _ ?t = Some _ =>
      destruct t as [[| |[]|[]| | | | | |]| []| []| |]; cbn in H;
      repeat case_match; simplify_eq
  end.

(** An invariant of single moves holds along every schedule. *)
Lemma run_invariant (I : config -> Prop) :
  (forall mv cfg cfg', I cfg -> step mv cfg = Some cfg' -> I cfg') ->
  forall sched cfg, I cfg -> I (run sched cfg).
Proof.
  intros Hstep sched. induction sched as [|mv sched IH]; intros cfg HI; [done|].
  cbn [run]. destruct (step mv cfg) as [cfg'|] eqn:Hs; eauto.
Qed.

Lemma run_app sched1 sched2 cfg :
  run (sched1 ++ sched2) cfg = run sched2 (run sched1 cfg).
Proof.
  revert cfg. induction sched1 as [|mv sched1 IH]; intros cfg; [done|].
  cbn [run app]. by destruct (step mv cfg).
Qed.

(** ** The mutexes *)

Lemma worker_outside ds : in_cur (worker ds) = false /\ in_fn (worker ds) = false.
Proof. by destruct ds. Qed.

Lemma mutex_ok_step mv cfg cfg' :
  mutex_ok cfg -> step mv cfg = Some cfg' -> mutex_ok cfg'.
Proof.
  intros [Hc Hf] Hs.
  apply step_Some in Hs as (t & σ' & t' & Hi & Hts & ->).
  destruct cfg as [σ ts]. cbn [fst snd] in *.
  pose proof (count_insert in_cur ts _ t t' Hi) as Ec.
  pose proof (count_insert in_fn ts _ t t' Hi) as Ef.
  unfold mutex_ok; cbn [fst snd].
  thread_cases Hts; cbn in *;
    try match goal with
        | _ : context [worker ?ds] |- _ =>
            destruct (worker_outside ds) as [Wc Wf]; rewrite ?Wc, ?Wf in *; cbn in *
        end;
    split; lia.
Qed.



(** ** The one-shot guard *)

Lemma closes_log tr e :
  closes (tr ++ [e]) = closes tr ++ (if is_EvClose e then [e] else []).
Proof. unfold closes. rewrite List.filter_app. cbn. by destruct (is_EvClose e). Qed.

Lemma done_calls_log tr e :
  done_calls (tr ++ [e]) = done_calls tr ++ (if is_EvDone e then [e] else []).
Proof. unfold done_calls. rewrite List.filter_app. cbn. by destruct (is_EvDone e). Qed.

#[local] Arguments closes : simpl never.
#[local] Arguments done_calls : simpl never.

(** Whatever goroutines there are and however they are scheduled, the
    guard and the channel stay in step: the channel is closed at most
    once, and never a second time. *)
Lemma close_ok_step mv cfg cfg' :
  close_ok cfg -> step mv cfg = Some cfg' -> close_ok cfg'.
Proof.
  intros Hc Hs.
  apply step_Some in Hs as (t & σ' & t' & Hi & Hts & ->).
  destruct cfg as [σ ts]. unfold close_ok in *. cbn [fst snd] in *.
  thread_cases Hts; cbn in *; rewrite ?closes_log; cbn [is_EvClose];
    rewrite ?app_nil_r; try done.
  all: repeat match goal with
         | H : o _ = _ |- _ => rewrite H in *
         | H : cancel _ = _ |- _ => rewrite H in *
         end; cbn in *.
  all: destruct Hc as [Hc1 Hc2]; rewrite ?Hc2; done.
Qed.

(** ** Concurrent [Report] calls *)

Lemma pending_worker f ds : pending f (worker ds) = sum_counter f ds.
Proof. by destruct ds. Qed.

Lemma reports_only_worker ds : reports_only (worker ds) = true.
Proof. by destruct ds. Qed.

Lemma get_put_eq f v s : get f (put f v s) = v.
Proof. by destruct f. Qed.

Lemma get_put_ne f g v s : f <> g -> get f (put g v s) = get f s.
Proof. by destruct f, g. Qed.

Lemma Trees_put g v s : Trees (put g v s) = Trees s.
Proof. by destruct g. Qed.

Lemma Blobs_put g v s : Blobs (put g v s) = Blobs s.
Proof. by destruct g. Qed.

Lemma report_ok_step goal tb mv cfg cfg' :
  report_ok goal tb cfg -> step mv cfg = Some cfg' -> report_ok goal tb cfg'.
Proof.
  intros (Hrun & [iv Hc] & Hcl & Hall & Hsum & Htmp & HT & HB & Hv & Hm) Hs.
  pose proof (mutex_ok_step _ _ _ Hm Hs) as Hm'.
  apply step_Some in Hs as (t & σ' & t' & Hi & Hts & ->).
  destruct cfg as [σ ts]. cbn [fst snd] in *.
  pose proof (forallb_lookup _ _ _ _ Hall Hi) as Ht.
  destruct Hm as [Mc Mf].
  pose proof (fun H => count_lookup in_cur ts _ t Hi H) as Lc.
  pose proof (fun H => count_lookup in_fn ts _ t Hi H) as Lf.
  assert (Hcur : cur (obj σ') = cur (obj σ) \/
                 exists f tmp s rest, t = InReport (RP_store f tmp) s rest /\
                   cur (obj σ') = put f (add64 tmp (get f s)) (cur (obj σ))).
  { thread_cases Hts; cbn; eauto 10. }
  assert (Hrest : running (obj σ') = true /\ c (obj σ') = TickerRunning iv /\
                  cancel (obj σ') = ChanOpen /\ reports_only t' = true).
  { thread_cases Hts; cbn in *; rewrite ?reports_only_worker;
      try done; try congruence.
    all: try (specialize (Lc eq_refl); rewrite Mc in Lc;
              match goal with H : curM _ = _ |- _ => rewrite H in Lc end;
              cbn in Lc; lia).
    all: try (specialize (Lf eq_refl); rewrite Mf in Lf;
              match goal with H : fnM _ = _ |- _ => rewrite H in Lf end;
              cbn in Lf; lia). }
  destruct Hrest as (Hrun' & Hc' & Hcl' & Ht').
  unfold report_ok. cbn [fst snd].
  split; [done|]. split; [eauto|]. split; [done|].
  split; [by apply forallb_insert|].
  split; [|split; [|split; [|split; [|split; [|done]]]]].
  - intros f. specialize (Hsum f).
    pose proof (total_pending_insert f ts _ t t' Hi) as Ep.
    assert (Hacc :
      (get f (cur (obj σ')) = get f (cur (obj σ)) /\ pending f t = pending f t') \/
      (exists x, get f (cur (obj σ')) = wrap64 (get f (cur (obj σ)) + x) /\
                 pending f t = x + pending f t')).
    { pose proof (Htmp (who mv) f) as Htmp'. clear Hcur Hm' Lc Lf.
      thread_cases Hts; cbn [pending before_store]; rewrite ?pending_worker;
        try (left; split; [reflexivity|cbn; lia]).
      all: destruct f; cbn;
        try (left; split; [reflexivity|lia]);
        right; eexists; (split; [|reflexivity]);
        rewrite (Htmp' _ _ _ Hi); reflexivity. }
    destruct Hacc as [[-> E]|(x & -> & E)].
    + rewrite <- Hsum. f_equal. lia.
    + rewrite <- Hsum, wrap64_add_l. f_equal. lia.
  - intros j f tmp s rest Hj.
    destruct (decide (j = who mv)) as [->|Hne].
    + rewrite list_lookup_insert_eq in Hj by (by eapply lookup_lt_Some).
      injection Hj as ->. clear Hcur.
      thread_cases Hts; try reflexivity;
        match goal with H : worker ?ds = _ |- _ => by destruct ds end.
    + rewrite list_lookup_insert_ne in Hj by done.
      specialize (Htmp _ _ _ _ _ Hj).
      destruct Hcur as [->|(g & tmp' & s' & rest' & -> & _)]; [done|].
      pose proof (count_two in_cur ts _ _ _ _ Hne Hj Hi eq_refl eq_refl) as H2.
      cbn [fst snd] in Mc. rewrite Mc in H2. destruct (curM σ); cbn in H2; lia.
  - destruct Hcur as [->|(g & tmp' & s' & rest' & _ & ->)]; [done|].
    by rewrite Trees_put.
  - destruct Hcur as [->|(g & tmp' & s' & rest' & _ & ->)]; [done|].
    by rewrite Blobs_put.
  - intros f. destruct Hcur as [->|(g & tmp' & s' & rest' & _ & ->)]; [done|].
    destruct (decide (counter_index f = counter_index g)) as [E|E].
    + assert (f = g) as -> by (by destruct f, g).
      rewrite get_put_eq. apply wrap64_lt.
    + rewrite get_put_ne by congruence. apply Hv.
Qed.


Lemma count_workers_outside P dss :
  (forall ds, P (worker ds) = false) -> count P (map worker dss) = 0%nat.
Proof.
  intros HP. induction dss as [|ds dss IH]; [done|].
  cbn [map]. by rewrite count_cons, HP, IH.
Qed.

Lemma total_pending_workers f dss :
  total_pending f (map worker dss) = sum_all f dss.
Proof.
  induction dss as [|ds dss IH]; [done|].
  cbn [map]. unfold total_pending in *. cbn [foldr sum_all].
  by rewrite pending_worker, IH.
Qed.

Lemma forallb_workers (P : thread -> bool) dss :
  (forall ds, P (worker ds) = true) -> forallb P (map worker dss) = true.
Proof.
  intros HP. induction dss as [|ds dss IH]; [done|].
  cbn [map forallb]. by rewrite HP, IH.
Qed.

Lemma lookup_workers dss i t :
  map worker dss !! i = Some t -> exists ds, t = worker ds.
Proof.
  rewrite list_lookup_fmap. destruct (dss !! i) as [ds|]; [|done].
  intros [= <-]. by exists ds.
Qed.

(** A started instance with its reporter and its reporting goroutines
    satisfies the invariant. *)
Lemma report_ok_init q dss :
  running q = true -> (exists iv, c q = TickerRunning iv) ->
  cancel q = ChanOpen -> Stat_valid (cur q) ->
  report_ok (fun f => wrap64 (get f (cur q) + sum_all f dss))
            (Trees (cur q), Blobs (cur q)) (reporting q dss).
Proof.
  intros Hr Hc Hcl (HF & HD & HB & _ & _).
  unfold report_ok, reporting, mutex_ok. cbn [fst snd obj curM fnM].
  repeat split; try done.
  - cbn [forallb reports_only]. apply forallb_workers, reports_only_worker.
  - intros f. f_equal. f_equal.
    change (total_pending f (InReporter PP_select :: map worker dss))
      with (0 + total_pending f (map worker dss)).
    by rewrite total_pending_workers.
  - intros [|i] f tmp s rest Hi; [done|].
    apply lookup_workers in Hi as [[|s' ds] Hw]; discriminate Hw.
  - by intros [].
  - rewrite count_cons. cbn. apply count_workers_outside, worker_outside.
  - rewrite count_cons. cbn. apply count_workers_outside, worker_outside.
Qed.

Lemma total_pending_finished f ts :
  forallb (fun t => negb (is_worker t)) ts = true -> total_pending f ts = 0.
Proof.
  induction ts as [|t ts IH]; [done|].
  cbn [forallb]. intros [Ht Hts]%andb_prop.
  unfold total_pending in *. cbn [foldr]. rewrite IH by done.
  by destruct t.
Qed.

(** When all reporting goroutines have returned, the total is the goal. *)
Lemma report_ok_finished goal tb cfg f :
  report_ok goal tb cfg -> reports_finished cfg = true ->
  get f (cur (obj cfg.1)) = goal f.
Proof.
  intros (_ & _ & _ & _ & Hsum & _ & _ & _ & Hv & _) Hfin.
  rewrite <- Hsum, total_pending_finished by done.
  rewrite N.add_0_r. symmetry. apply wrap64_small, Hv.
Qed.

Lemma report_ok_nobody_panicked goal tb cfg :
  report_ok goal tb cfg -> nobody_panicked cfg = true.
Proof.
  intros (_ & _ & _ & Hall & _). unfold nobody_panicked.
  induction cfg.2 as [|t ts IH]; [done|].
  cbn [forallb] in *. apply andb_prop in Hall as [Ht Hts].
  rewrite IH by done. by destruct t.
Qed.

(** ** Every pool can run to completion *)

Lemma rank_worker ds : rank (worker ds) = (14 * length ds)%nat.
Proof. destruct ds; cbn [worker rank rank_report length]; lia. Qed.

(** A move that is not a tick uses up rank. *)
Lemma rank_step mv cfg cfg' :
  tick mv = false -> step mv cfg = Some cfg' ->
  (total_rank cfg'.2 < total_rank cfg.2)%nat.
Proof.
  intros Htk Hs.
  apply step_Some in Hs as (t & σ' & t' & Hi & Hts & ->).
  cbn [fst snd]. pose proof (total_rank_insert cfg.2 _ t t' Hi) as E.
  assert (rank t' < rank t)%nat; [|lia].
  rewrite Htk in Hts. clear E Hi.
  thread_cases Hts; rewrite ?rank_worker; cbn [rank rank_report rank_reporter rank_done length]; lia.
Qed.

Lemma in_cur_moves tk σ t : in_cur t = true -> is_Some (thread_step tk σ t).
Proof.
  destruct t as [[]| []| []| |]; try discriminate; intros _; cbn;
    repeat case_match; eauto.
Qed.

Lemma in_fn_moves tk σ t : in_fn t = true -> is_Some (thread_step tk σ t).
Proof.
  destruct t as [[]| []| []| |]; try discriminate; intros _; cbn;
    repeat case_match; eauto.
Qed.

Lemma can_step i tk dt cfg t :
  cfg.2 !! i = Some t -> is_Some (thread_step tk (advance dt cfg.1) t) ->
  exists cfg', step (mkMove i tk dt) cfg = Some cfg'.
Proof.
  intros Hi [[σ' t'] Hts]. unfold step. cbn [who tick elapse].
  rewrite Hi, Hts. eauto.
Qed.

(** A goroutine that waits for a mutex waits for one that can move. *)
Lemma waits_for_mutex σ ts tk t :
  mutex_ok (σ, ts) -> thread_step tk σ t = None ->
  is_Returned t = false -> is_Panicked t = false ->
  (forall pc, t <> InReporter pc) ->
  exists j u, ts !! j = Some u /\ is_Some (thread_step false σ u).
Proof.
  intros [Mc Mf] Hts Hr Hp Hrep. cbn [fst snd] in *.
  assert (curM σ = true \/ fnM σ = true) as [H|H].
  { destruct t as [[]| pc | []| |]; cbn in Hts; try done;
      repeat case_match; try done; eauto. by destruct (Hrep pc). }
  - rewrite H in Mc. destruct (count_pos in_cur ts) as (j & u & Hj & Hu); [cbn in Mc; lia|].
    exists j, u. split; [done|]. by apply in_cur_moves.
  - rewrite H in Mf. destruct (count_pos in_fn ts) as (j & u & Hj & Hu); [cbn in Mf; lia|].
    exists j, u. split; [done|]. by apply in_fn_moves.
Qed.

Lemma unfinished_worker ts :
  forallb (fun t => negb (is_worker t)) ts = false ->
  exists i t, ts !! i = Some t /\ is_worker t = true.
Proof.
  induction ts as [|u ts IH]; [done|]. cbn [forallb].
  destruct (is_worker u) eqn:Hu.
  - intros _. by exists 0%nat, u.
  - cbn. intros H. destruct (IH H) as (i & t & Hi & Ht). by exists (S i), t.
Qed.

Lemma report_progress goal tb cfg :
  report_ok goal tb cfg -> reports_finished cfg = false ->
  exists mv cfg', tick mv = false /\ step mv cfg = Some cfg'.
Proof.
  intros Hok Hfin. destruct cfg as [σ ts].
  assert (Hm : mutex_ok (σ, ts)) by apply Hok.
  apply unfinished_worker in Hfin as (i & t & Hi & Ht).
  destruct (thread_step false (advance 0 σ) t) as [r|] eqn:Hts.
  - destruct (can_step i false 0 (σ, ts) t Hi) as [cfg' Hs];
      [cbn [fst]; rewrite Hts; eauto|].
    by exists (mkMove i false 0), cfg'.
  - destruct (waits_for_mutex (advance 0 σ) ts false t) as (j & u & Hj & Hu);
      try done; try (by destruct t).
    destruct (can_step j false 0 (σ, ts) u Hj Hu) as [cfg' Hs].
    by exists (mkMove j false 0), cfg'.
Qed.

(** An invariant under which some goroutine can always move without a
    tick until [fin] holds lets every pool run until [fin] holds. *)
Lemma runs_to_completion (I : config -> Prop) (fin : config -> bool) :
  (forall mv cfg cfg', I cfg -> step mv cfg = Some cfg' -> I cfg') ->
  (forall cfg, I cfg -> fin cfg = false ->
     exists mv cfg', tick mv = false /\ step mv cfg = Some cfg') ->
  forall cfg, I cfg -> exists sched, fin (run sched cfg) = true.
Proof.
  intros Hinv Hprog cfg.
  remember (total_rank cfg.2) as n eqn:Hn.
  revert cfg Hn. induction n as [n IH] using lt_wf_ind. intros cfg -> HI.
  destruct (fin cfg) eqn:Hfin; [by exists []|].
  destruct (Hprog cfg HI Hfin) as (mv & cfg' & Htk & Hs).
  pose proof (rank_step _ _ _ Htk Hs) as Hlt.
  destruct (IH _ Hlt cfg' eq_refl (Hinv _ _ _ HI Hs)) as [sched Hsched].
  exists (mv :: sched). cbn [run]. by rewrite Hs.
Qed.

Lemma reports_finished_step mv cfg cfg' :
  reports_finished cfg = true -> step mv cfg = Some cfg' ->
  reports_finished cfg' = true.
Proof.
  intros Hfin Hs.
  apply step_Some in Hs as (t & σ' & t' & Hi & Hts & ->).
  unfold reports_finished in *. cbn [snd].
  apply forallb_insert; [done|].
  pose proof (forallb_lookup _ _ _ _ Hfin Hi) as Ht.
  destruct t as [| pc | pc | |]; try done.
  - destruct pc; cbn in Hts; repeat case_match; by simplify_eq.
  - destruct pc; cbn in Hts; repeat case_match; by simplify_eq.
Qed.

(** Concurrent [Report] calls with any deltas: however the goroutines
    are scheduled, nobody panics and, once all have returned, each
    counter holds its old value plus the sum of all deltas, in [uint64]
    arithmetic; and every schedule can be continued until all have
    returned. *)
Lemma concurrent_reports_sum q dss sched :
  running q = true -> (exists iv, c q = TickerRunning iv) ->
  cancel q = ChanOpen -> Stat_valid (cur q) ->
  nobody_panicked (run sched (reporting q dss)) = true /\
  (reports_finished (run sched (reporting q dss)) = true ->
   forall more f,
     get f (cur (obj (run (sched ++ more) (reporting q dss)).1))
       = wrap64 (get f (cur q) + sum_all f dss)) /\
  exists more, reports_finished (run (sched ++ more) (reporting q dss)) = true.
Proof.
  intros Hr Hc Hcl Hv.
  pose proof (report_ok_init q dss Hr Hc Hcl Hv) as Hinit.
  set (goal := fun f => wrap64 (get f (cur q) + sum_all f dss)) in *.
  set (tb := (Trees (cur q), Blobs (cur q))) in *.
  assert (Hinv : forall sched', report_ok goal tb (run sched' (reporting q dss))).
  { intros sched'. apply (run_invariant (report_ok goal tb)); [|done].
    intros mv cfg cfg'. apply report_ok_step. }
  split; [by eapply report_ok_nobody_panicked|]. split.
  - intros Hfin more f.
    apply (report_ok_finished goal tb _ f (Hinv _)).
    rewrite run_app.
    apply (run_invariant (fun cfg => reports_finished cfg = true)); [|done].
    intros mv cfg cfg'. apply reports_finished_step.
  - destruct (runs_to_completion (report_ok goal tb) reports_finished)
      with (cfg := run sched (reporting q dss)) as [more Hmore].
    + intros mv cfg cfg'. apply report_ok_step.
    + apply report_progress.
    + apply Hinv.
    + exists more. by rewrite run_app.
Qed.

Lemma sum_counter_bytes m :
  sum_counter CBytes (replicate m (mkStat 0 0 1 0 0)) = N.of_nat m.
Proof.
  induction m as [|m IH]; [done|].
  change (sum_counter CBytes (replicate (S m) (mkStat 0 0 1 0 0)))
    with (1 + sum_counter CBytes (replicate m (mkStat 0 0 1 0 0))).
  rewrite IH. lia.
Qed.

Lemma sum_all_bytes n m :
  sum_all CBytes (replicate n (replicate m (mkStat 0 0 1 0 0)))
    = N.of_nat n * N.of_nat m.
Proof.
  induction n as [|n IH]; [done|].
  change (sum_all CBytes (replicate (S n) (replicate m (mkStat 0 0 1 0 0))))
    with (sum_counter CBytes (replicate m (mkStat 0 0 1 0 0)) +
          sum_all CBytes (replicate n (replicate m (mkStat 0 0 1 0 0)))).
  rewrite IH, sum_counter_bytes. lia.
Qed.

(** C9.  [n] goroutines each call [Report(Stat{Bytes: 1})] [m] times on
    an instance that [Start] has just set running, next to its reporter
    goroutine.  However the moves of the goroutines are interleaved,
    nobody panics; once every call has returned, [Current], then or at
    any later moment, returns [Bytes == n*m] (in [uint64]: modulo [2^64],
    hence exactly [n*m] when that fits in 64 bits); and every schedule
    can be continued until every call has returned. *)
Theorem concurrent_Report_no_lost_updates
    (q0 q : Progress) (now : Z) (tr : list event) (n m : nat) (sched : list move) :
  Start now (Some q0) = Ok (Some q, tr) ->
  nobody_panicked (run sched (byte_reporters q n m)) = true /\
  (reports_finished (run sched (byte_reporters q n m)) = true ->
   forall more, exists s,
     Current (Some (obj (run (sched ++ more) (byte_reporters q n m)).1)) = Ok s /\
     Bytes s = wrap64 (N.of_nat n * N.of_nat m) /\
     (N.of_nat n * N.of_nat m < uint64_modulus ->
      Bytes s = N.of_nat n * N.of_nat m)) /\
  exists more, reports_finished (run (sched ++ more) (byte_reporters q n m)) = true.
Proof.
  intros Hs. apply Start_Ok_inv in Hs as (_ & _ & [= ->]).
  destruct (concurrent_reports_sum (started now q0)
              (replicate n (replicate m (mkStat 0 0 1 0 0))) sched)
    as (Hp & Hsum & Hmore);
    [reflexivity|by eexists|reflexivity|apply Stat_zero_valid|].
  split; [exact Hp|]. split; [|exact Hmore].
  intros Hfin more. eexists. split; [reflexivity|].
  specialize (Hsum Hfin more CBytes). cbn [get] in Hsum.
  unfold byte_reporters. rewrite Hsum, sum_all_bytes. cbn [started cur Stat_zero Bytes].
  rewrite N.add_0_l. split; [done|]. apply wrap64_small.
Qed.

Lemma concurrent_Report_no_lost_updates_witness :
  exists s,
    Current (Some (obj (run
      (map (fun i => mkMove i true 1)
           [1; 1; 2; 0; 2; 1; 2; 0; 0; 1; 2; 1; 1; 1; 1; 1; 1; 1; 1; 1; 1; 1; 1; 1; 1;
            2; 2; 2; 0; 0; 0; 0; 0; 0; 2; 2; 2; 2; 2; 2; 2; 2; 2; 2; 2; 2; 2]%nat ++ [])
      (byte_reporters
         (started 0 (mkProgress true true Stat_zero 0 TickerNil ChanNil false 1 false))
         2 1)).1)) = Ok s /\
    Bytes s = 2.
Proof.
  destruct (concurrent_Report_no_lost_updates
              (mkProgress true true Stat_zero 0 TickerNil ChanNil false 1 false)
              (started 0 (mkProgress true true Stat_zero 0 TickerNil ChanNil false 1 false))
              0 [EvMakeChan; EvNewTicker 1; EvGo] 2 1
              (map (fun i => mkMove i true 1)
                 [1; 1; 2; 0; 2; 1; 2; 0; 0; 1; 2; 1; 1; 1; 1; 1; 1; 1; 1; 1; 1; 1; 1; 1; 1;
                  2; 2; 2; 0; 0; 0; 0; 0; 0; 2; 2; 2; 2; 2; 2; 2; 2; 2; 2; 2; 2; 2]%nat)
              eq_refl) as (_ & Hfin & _).
  destruct (Hfin eq_refl []) as (s & Hc & _ & Hb).
  exists s. split; [exact Hc|]. apply Hb. reflexivity.
Defined.

(** ** [Done] next to the reporter *)

Lemma shutdown_ok_init q : armed q -> shutdown_ok q (shutting_down q).
Proof.
  intros (Hr & Ho & Hc & Hk). exists (InDone DP_check), (InReporter PP_select).
  unfold shutting_down, close_ok, mutex_ok. cbn. rewrite Ho. done.
Qed.

Lemma done_stage_ext Q q σ σ' t :
  running (obj σ') = running (obj σ) -> o (obj σ') = o (obj σ) ->
  done_calls (trace σ') = done_calls (trace σ) ->
  done_stage Q q σ t -> done_stage Q q σ' t.
Proof.
  intros Hr Ho Hd. destruct t as [|?|[]| |]; cbn; rewrite ?Hr, ?Ho, ?Hd; done.
Qed.

Lemma shutdown_ok_step q mv cfg cfg' :
  shutdown_ok q cfg -> step mv cfg = Some cfg' -> shutdown_ok q cfg'.
Proof.
  intros (td & tr & Hts & Hcur & Hdn & Hd & Hrp & Hcl & Hm) Hs.
  pose proof (mutex_ok_step _ _ _ Hm Hs) as Hm'.
  pose proof (close_ok_step _ _ _ Hcl Hs) as Hcl'.
  apply step_Some in Hs as (t & σ' & t' & Hi & Hstep & ->).
  destruct cfg as [σ ts]. cbn [fst snd] in *. subst ts.
  destruct Hm as [Mc Mf]. cbn [fst snd] in Mc, Mf.
  unfold shutdown_ok. cbn [fst snd].
  destruct (who mv) as [|[|k]]; [| |done]; injection Hi as <-.
  - (* a move of Done *)
    exists t', tr. change (<[0%nat:=t']> [td; tr]) with [t'; tr].
    split; [done|].
    assert (Hrp' : reporter_stage σ' tr).
    { destruct td as [|?|pc| |]; try done.
      destruct pc; cbn in Hstep; repeat case_match; by simplify_eq. }
    assert (Hkeep : cur (obj σ') = cur (obj σ) /\ OnDone (obj σ') = OnDone (obj σ)).
    { destruct td as [|?|pc| |]; try done.
      destruct pc; cbn in Hstep; repeat case_match; by simplify_eq. }
    destruct Hkeep as [-> ->].
    do 2 (split; [done|]). split; [|done].
    unfold close_ok in Hcl. cbn [fst snd] in Hcl.
    rewrite count_cons in Mf.
    destruct td as [|?|pc| |]; try done.
    destruct pc; cbn in Hstep; repeat case_match; simplify_eq;
      cbn in *; rewrite ?done_calls_log; cbn [is_EvDone];
      rewrite ?app_nil_r; try (intuition congruence).
    all: repeat match goal with
                | H : _ /\ _ |- _ => destruct H
                | H : ex _ |- _ => destruct H
                | H : false = OnDone _ |- _ => rewrite <- H
                | H : OnDone _ = true |- _ => rewrite H
                | H : done_calls _ = _ |- _ => rewrite H
                end; subst; repeat split; eauto.
  - (* a move of the reporter *)
    exists td, t'. change (<[1%nat:=t']> [td; tr]) with [td; t'].
    split; [done|].
    assert (Hkeep : obj σ' = obj σ /\ done_calls (trace σ') = done_calls (trace σ)
                    /\ reporter_stage σ' t' \/
                    exists iv, c (obj σ) = TickerRunning iv /\
                      obj σ' = set_c TickerStopped (obj σ) /\
                      done_calls (trace σ') = done_calls (trace σ) /\
                      t' = Returned).
    { rewrite !count_cons in Mc, Mf.
      destruct tr as [|pc| | |]; try done. destruct Hrp as [iv Hiv].
      destruct pc; cbn in Hstep; repeat case_match; simplify_eq;
        cbn in *; rewrite ?done_calls_log; cbn [is_EvDone]; rewrite ?app_nil_r;
        try (left; by eauto); try (right; by eauto); try lia.
      all: destruct td as [|?|[]| |]; cbn in *; try done; try lia. }
    destruct Hkeep as [(Ho & Hdc & Hst)|(iv & Hiv & Ho & Hdc & ->)].
    + rewrite Ho. do 2 (split; [done|]).
      split; [apply (done_stage_ext _ q σ); by rewrite ?Ho|]. done.
    + rewrite Ho. split; [by destruct (obj σ)|]. split; [by destruct (obj σ)|].
      split; [apply (done_stage_ext _ q σ); rewrite ?Ho; by destruct (obj σ)|].
      split; [cbn; rewrite Ho; by destruct (obj σ)|]. done.
Qed.

Lemma shutdown_progress q cfg :
  shutdown_ok q cfg -> all_returned cfg = false ->
  exists mv cfg', tick mv = false /\ step mv cfg = Some cfg'.
Proof.
  intros (td & tr & Hts & _ & _ & Hd & Hrp & Hcl & Hm) Hfin.
  destruct cfg as [σ ts]. cbn [fst snd] in *. subst ts.
  assert (Hmove : forall i u, [td; tr] !! i = Some u ->
            is_Some (thread_step false (advance 0 σ) u) ->
            exists mv cfg', tick mv = false /\ step mv (σ, [td; tr]) = Some cfg').
  { intros i u Hi Hu. destruct (can_step i false 0 (σ, [td; tr]) u Hi Hu) as [cfg' Hs].
    by exists (mkMove i false 0), cfg'. }
  destruct td as [|?|pc| |]; try done.
  - (* Done is under way *)
    destruct (thread_step false (advance 0 σ) (InDone pc)) as [r|] eqn:Hstep.
    + apply (Hmove 0%nat (InDone pc)); [done|by rewrite Hstep].
    + destruct (waits_for_mutex (advance 0 σ) [InDone pc; tr] false (InDone pc))
        as (j & u & Hj & Hu); try done.
      by apply (Hmove j u).
  - (* Done has returned: the reporter sees the closed channel *)
    destruct tr as [|pc| | |]; try done.
    apply (Hmove 1%nat (InReporter pc)); [done|].
    destruct Hd as (_ & Ho & _). destruct Hrp as [iv Hiv].
    unfold close_ok in Hcl. cbn [fst snd] in Hcl. rewrite Ho in Hcl.
    destruct Hcl as [Hch _]. destruct Hm as [Mc Mf].
    cbn [fst snd] in Mc, Mf. rewrite !count_cons in Mc, Mf.
    destruct pc; cbn in *; rewrite ?Hiv, ?Hch; repeat case_match; eauto;
      destruct (curM σ), (fnM σ); cbn in *; done.
Qed.

(** ** Any pool: the guard *)



(** ** Calls that race with [Done] *)


(** ** From the calls of part 1 to the pools of part 2 *)

Lemma armed_started now q : armed (started now q).
Proof. repeat split. by eexists. Qed.

Lemma armed_set_cur v q : armed q -> armed (set_cur v q).
Proof. by destruct q. Qed.

(** A run that has not reached its [Done] is armed. *)
Lemma armed_execs ks : forall q q' tr,
  armed q -> forallb (fun k => negb (is_Done k)) ks = true ->
  execs ks (Some q) = Ok (Some q', tr) -> armed q'.
Proof.
  induction ks as [|k ks IH]; intros q q' tr Ha Hks He.
  - cbn in He. by injection He as <- _.
  - cbn [forallb] in Hks. apply andb_prop in Hks as [Hk Hks].
    cbn [execs] in He.
    assert (Hr : running q = true) by apply Ha.
    destruct k as [now|s now|size now|now| |now]; cbn [exec] in He; [ | | | | |done].
    + by rewrite Start_running in He.
    + rewrite Report_running in He by done.
      destruct (execs ks _) as [[p2 t2]|] eqn:E; [|done].
      injection He as -> _. eapply IH; [|done|exact E]. by apply armed_set_cur.
    + unfold ReportFile in He. rewrite Report_running in He by done.
      destruct (execs ks _) as [[p2 t2]|] eqn:E; [|done].
      injection He as -> _. eapply IH; [|done|exact E]. by apply armed_set_cur.
    + unfold ReportDir in He. rewrite Report_running in He by done.
      destruct (execs ks _) as [[p2 t2]|] eqn:E; [|done].
      injection He as -> _. eapply IH; [|done|exact E]. by apply armed_set_cur.
    + rewrite Reset_running in He by done.
      destruct (execs ks _) as [[p2 t2]|] eqn:E; [|done].
      injection He as -> _. eapply IH; [|done|exact E]. by apply armed_set_cur.
Qed.

(** The moves of [Done], made without interruption, do what the call of
    part 1 does. *)
Lemma Done_moves_agree q :
  armed q ->
  exists cfg,
    run (replicate 9 (mkMove 0 false 0)) (shutting_down q) = cfg /\
    cfg.2 = [Returned; InReporter PP_select] /\
    Done (start q) (Some q) = Ok (Some (obj cfg.1), trace cfg.1).
Proof.
  intros (Hr & Ho & Hc & iv & Hk).
  destruct q as [upd dn total st tk ch fired ivl r]. cbn in Hr, Ho, Hc, Hk. subst.
  eexists. split; [reflexivity|]. destruct dn; cbn; rewrite ?Z.add_0_r; done.
Qed.

(** The moves of one [Report], made without interruption, do what the
    call of part 1 does. *)
Lemma Report_moves_agree q s :
  armed q ->
  exists cfg,
    run (replicate 14 (mkMove 1 false 0)) (reporting q [[s]]) = cfg /\
    cfg.2 = [InReporter PP_select; Returned] /\
    Report s (start q) (Some q) = Ok (Some (obj cfg.1), trace cfg.1).
Proof.
  intros (Hr & Ho & Hc & iv & Hk).
  destruct q as [upd dn total st tk ch fired ivl r]. cbn in Hr, Ho, Hc, Hk. subst.
  eexists. split; [reflexivity|]. destruct total, s, upd; cbn; rewrite ?Z.add_0_r; done.
Qed.

(** ** [Done] among any goroutines *)








(** ** [Done] among goroutines that do not report *)






(** ** [Done] and the reporter, alone *)

(** With only the reporter next to it, nobody panics and every
    interleaving can be continued until [Done] has returned and the
    reporter, having seen the closed channel, has stopped its ticker and
    returned. *)
Lemma Done_and_reporter_return (q : Progress) (sched : list move) :
  armed q ->
  nobody_panicked (run sched (shutting_down q)) = true /\
  exists more, all_returned (run (sched ++ more) (shutting_down q)) = true.
Proof.
  intros Ha.
  assert (Hinv : forall sched', shutdown_ok q (run sched' (shutting_down q))).
  { intros sched'. apply (run_invariant (shutdown_ok q)).
    - intros mv cfg cfg'. apply shutdown_ok_step.
    - by apply shutdown_ok_init. }
  split.
  - destruct (Hinv sched) as (td & tr & Hts & _ & _ & Hd & Hrp & _).
    unfold nobody_panicked. rewrite Hts. cbn.
    destruct td as [|?|[]| |], tr as [|?| | |]; done.
  - destruct (runs_to_completion (shutdown_ok q) all_returned)
      with (cfg := run sched (shutting_down q)) as [more Hmore].
    + intros mv cfg cfg'. apply shutdown_ok_step.
    + apply shutdown_progress.
    + apply Hinv.
    + exists more. by rewrite run_app.
Qed.

(** * Further properties, part 1: call sequences *)

Lemma fresh_NewProgress iv : NewProgress iv = Some (new_instance false false iv).
Proof. reflexivity. Qed.

Lemma consistent_fresh upd dn iv : (0 < iv)%Z -> consistent (new_instance upd dn iv).
Proof. intros H. repeat split; done. Qed.

(** What one call does to a consistent instance. *)
Lemma exec_consistent q k :
  consistent q ->
  match k with
  | CStart now =>
      if running q then exec k (Some q) = Panic "truing to reset a running Progress"
      else exec k (Some q) =
             Ok (Some (started now q), [EvMakeChan; EvNewTicker (d q); EvGo])
  | CDone now =>
      if running q
      then exec k (Some q) =
             Ok (Some (stopped_by_Done q),
                 EvClose ::
                 if OnDone q then [EvDone (cur q) (Since now (start q)) false] else [])
      else exec k (Some q) = Panic "Done() called on non-running Progress"
  | CReset =>
      if running q then exec k (Some q) = Ok (Some (set_cur Stat_zero q), [])
      else exec k (Some q) = Panic "resetting a non-running Progress"
  | CReport _ now | CReportFile _ now | CReportDir now =>
      if running q
      then exec k (Some q) =
             Ok (Some (set_cur (Add (cur q) (delta_of k)) q),
                 if OnUpdate q
                 then [EvUpdate (Add (cur q) (delta_of k)) (Since now (start q)) false]
                 else [])
      else exec k (Some q) = Panic "reporting in a non-running Progress"
  end.
Proof.
  intros (Hd & _ & _ & _ & Hrun).
  destruct (running q) eqn:Hr.
  - destruct (Hrun eq_refl) as (Ho & Hc & _).
    destruct k; cbn [exec delta_of]; unfold ReportFile, ReportDir;
      rewrite ?Start_running, ?Report_running, ?Reset_running, ?Done_running by done;
      done.
  - destruct k; cbn [exec delta_of]; unfold ReportFile, ReportDir;
      rewrite ?Start_stopped, ?Report_stopped, ?Reset_stopped, ?Done_stopped by done;
      done.
Qed.

Lemma consistent_started now q : (0 < d q)%Z -> consistent (started now q).
Proof. intros H. repeat split; done. Qed.

Lemma consistent_stopped q : consistent q -> consistent (stopped_by_Done q).
Proof. intros (Hd & HT & HB & Hv & _). by destruct q. Qed.

Lemma consistent_set_cur v q :
  consistent q -> Trees v = 0 -> Blobs v = 0 -> Stat_valid v ->
  consistent (set_cur v q).
Proof. intros (Hd & _ & _ & _ & Hrun) HT HB Hv. by destruct q. Qed.

Lemma consistent_Add q s : consistent q -> consistent (set_cur (Add (cur q) s) q).
Proof.
  intros Hq. pose proof Hq as (_ & HT & HB & _).
  apply consistent_set_cur; [done|done|done|].
  apply Add_valid; rewrite ?HT, ?HB; done.
Qed.

(** One call that returns: the instance stays consistent, [running]
    moves as the protocol says. *)
Lemma exec_Ok q k p' tr :
  consistent q -> exec k (Some q) = Ok (p', tr) ->
  exists q', p' = Some q' /\ consistent q' /\
    protocol (running q) [k] = true /\
    running q' = (if is_Start k then true else if is_Done k then false else running q).
Proof.
  intros Hq He. pose proof (exec_consistent q k Hq) as Hk.
  pose proof Hq as (Hd & _).
  destruct (running q) eqn:Hr, k; rewrite Hk in He; try discriminate He;
    injection He as <- <-; eexists; (split; [reflexivity|]);
    repeat split; try done;
    try (by apply consistent_Add);
    try (by apply consistent_started);
    try (by apply consistent_stopped);
    try (apply consistent_set_cur; by try apply Stat_zero_valid);
    by destruct q.
Qed.

Lemma exec_Panic q k msg :
  consistent q -> exec k (Some q) = Panic msg -> protocol (running q) [k] = false.
Proof.
  intros Hq He. pose proof (exec_consistent q k Hq) as Hk.
  destruct (running q), k; rewrite Hk in He; done.
Qed.

Lemma protocol_cons run k ks :
  protocol run (k :: ks) =
    protocol run [k] &&
    protocol (if is_Start k then true else if is_Done k then false else run) ks.
Proof. destruct k, run; cbn; rewrite ?andb_true_r; done. Qed.

Lemma execs_protocol ks : forall q,
  consistent q ->
  (exists r, execs ks (Some q) = Ok r) <-> protocol (running q) ks = true.
Proof.
  induction ks as [|k ks IH]; intros q Hq.
  - split; [done|]. intros _. by eexists.
  - rewrite protocol_cons. cbn [execs].
    destruct (exec k (Some q)) as [[p1 t1]|msg] eqn:He.
    + destruct (exec_Ok _ _ _ _ Hq He) as (q1 & -> & Hq1 & Hp & Hr1).
      rewrite Hp, <- Hr1. cbn [andb]. rewrite <- (IH q1 Hq1).
      split; intros [r Hr].
      * destruct (execs ks (Some q1)) as [r'|]; [by eexists|done].
      * rewrite Hr. destruct r. by eexists.
    + rewrite (exec_Panic _ _ _ Hq He). split; [by intros [r Hr]|done].
Qed.

(** X1.  On an instance made by [NewProgress] with a positive interval,
    with or without callbacks, a sequence of calls runs without a panic
    exactly when it follows the protocol: [Start] only while not
    running, [Report], [ReportFile], [ReportDir], [Reset] and [Done]
    only while running, where [Start] sets running and [Done] clears
    it. *)
Theorem calls_accepted (upd dn : bool) (iv : Z) (ks : list call) :
  (0 < iv)%Z ->
  (exists r, execs ks (Some (new_instance upd dn iv)) = Ok r) <-> protocol false ks = true.
Proof.
  intros Hiv. apply (execs_protocol ks _ (consistent_fresh upd dn iv Hiv)).
Qed.

Lemma calls_accepted_witness :
  (exists r, execs [CStart 0; CReportFile 5 1; CDone 2; CStart 3; CReset] (NewProgress 1)
             = Ok r) /\
  ~ (exists r, execs [CStart 0; CDone 2; CReportDir 3] (NewProgress 1) = Ok r).
Proof.
  split.
  - apply (proj2 (calls_accepted false false 1
                    [CStart 0; CReportFile 5 1; CDone 2; CStart 3; CReset] eq_refl)).
    reflexivity.
  - intros H.
    pose proof (proj1 (calls_accepted false false 1 [CStart 0; CDone 2; CReportDir 3]
                         eq_refl) H) as Hp.
    discriminate Hp.
Defined.

Lemma first_call_panics upd dn iv k ks :
  (iv <= 0)%Z ->
  exists msg,
    execs (k :: ks) (Some (new_instance upd dn iv)) = Panic msg /\
    (is_Start k = true -> msg = "non-positive interval for NewTicker").
Proof.
  intros Hiv. cbn [execs].
  destruct k; cbn [exec]; unfold ReportFile, ReportDir;
    rewrite ?Start_stopped_bad_interval, ?Report_stopped, ?Reset_stopped,
            ?Done_stopped by done;
    eexists; (split; [reflexivity|]); done.
Qed.

(** X2.  An instance made by [NewProgress] with a non-positive interval
    is unusable: whatever call comes first panics.  [Start] reaches
    [time.NewTicker], which refuses the interval; every other call finds
    the instance not running. *)
Theorem non_positive_interval (upd dn : bool) (iv : Z) (k : call) (ks : list call) :
  (iv <= 0)%Z ->
  exists msg,
    execs (k :: ks) (Some (new_instance upd dn iv)) = Panic msg /\
    (is_Start k = true -> msg = "non-positive interval for NewTicker").
Proof. apply first_call_panics. Qed.

Lemma non_positive_interval_witness :
  exists msg,
    execs [CStart 5; CReportDir 6] (NewProgress 0) = Panic msg /\
    msg = "non-positive interval for NewTicker".
Proof.
  destruct (non_positive_interval false false 0 (CStart 5) [CReportDir 6])
    as (msg & He & Hm).
  - intros H. discriminate H.
  - exists msg. split; [exact He|exact (Hm eq_refl)].
Defined.

(** ** Totals of [ReportFile] and [ReportDir] *)

Lemma execs_file_or_dir ks p :
  forallb file_or_dir ks = true ->
  execs ks p = execs (reports (map (fun k => (delta_of k, time_of k)) ks)) p.
Proof.
  revert p. induction ks as [|k ks IH]; intros p Hks; [done|].
  cbn [forallb] in Hks. apply andb_prop in Hks as [Hk Hks].
  cbn [map reports execs]. fold (reports (map (fun k => (delta_of k, time_of k)) ks)).
  assert (exec k p = exec (CReport (delta_of k) (time_of k)) p) as -> by (by destruct k).
  destruct (exec _ p) as [[p1 t1]|]; [|done]. by rewrite IH.
Qed.

Lemma sum_field_file_or_dir ks :
  forallb file_or_dir ks = true ->
  sum_field Files (map (fun k => (delta_of k, time_of k)) ks)
    = N.of_nat (occurrences is_ReportFile ks) /\
  sum_field Dirs (map (fun k => (delta_of k, time_of k)) ks)
    = N.of_nat (occurrences is_ReportDir ks) /\
  sum_field Bytes (map (fun k => (delta_of k, time_of k)) ks)
    = sizes_reported ks.
Proof.
  induction ks as [|k ks IH]; [done|].
  cbn [forallb]. intros [Hk Hks]%andb_prop. destruct (IH Hks) as (HF & HD & HB).
  unfold sum_field, occurrences, sizes_reported in *.
  cbn [map foldr fst List.filter]. rewrite HF, HD, HB.
  destruct k; try discriminate Hk; cbn; repeat split; lia.
Qed.

(** X3.  After the total has been zeroed by a [Start] or a [Reset], any
    sequence of [ReportFile] and [ReportDir] calls returns and leaves
    [Current] with [Files] the number of [ReportFile] calls, [Dirs] the
    number of [ReportDir] calls and [Bytes] the sum of the sizes, each
    modulo [2^64]; [Trees] and [Blobs] are zero. *)
Theorem ReportFile_ReportDir_totals
    (q0 q : Progress) (k0 : call) (tr0 : list event) (ks : list call) :
  zeroes_total k0 = true ->
  exec k0 (Some q0) = Ok (Some q, tr0) ->
  forallb file_or_dir ks = true ->
  exists q' tr,
    execs ks (Some q) = Ok (Some q', tr) /\
    Current (Some q') =
      Ok (mkStat (wrap64 (N.of_nat (occurrences is_ReportFile ks)))
                 (wrap64 (N.of_nat (occurrences is_ReportDir ks)))
                 (wrap64 (sizes_reported ks)) 0 0).
Proof.
  intros Hk He Hks.
  assert (Hq : running q = true /\ cur q = Stat_zero).
  { destruct k0 as [now| | | | |]; try discriminate Hk; cbn [exec] in He.
    - apply Start_Ok_inv in He as (_ & _ & [= ->]). done.
    - destruct (running q0) eqn:Hr.
      + rewrite Reset_running in He by done. injection He as <- _. by destruct q0.
      + by rewrite Reset_stopped in He. }
  destruct Hq as [Hr Hz].
  destruct (reports_running (map (fun k => (delta_of k, time_of k)) ks) q Hr)
    as (q' & tr & He' & _ & _ & HF & HD & HB & HT & HL).
  { rewrite Hz. apply Stat_zero_valid. }
  destruct (sum_field_file_or_dir ks Hks) as (EF & ED & EB).
  exists q', tr. rewrite execs_file_or_dir by done. split; [exact He'|].
  cbn [Current]. f_equal.
  rewrite Hz, EF, ED, EB in *. cbn [Stat_zero Files Dirs Bytes Trees Blobs] in *.
  rewrite N.add_0_l in HF, HD, HB.
  destruct (cur q'); cbn in *; congruence.
Qed.

Lemma ReportFile_ReportDir_totals_witness :
  exists q' tr,
    execs [CReportFile 10 1; CReportDir 2; CReportFile 32 3; CReportDir 4; CReportDir 5]
          (Some (started 0 (mkProgress true true Stat_zero 0 TickerNil ChanNil false 1 false)))
      = Ok (Some q', tr) /\
    Current (Some q') = Ok (mkStat 2 3 42 0 0).
Proof.
  exact (ReportFile_ReportDir_totals
    (mkProgress true true Stat_zero 0 TickerNil ChanNil false 1 false)
    (started 0 (mkProgress true true Stat_zero 0 TickerNil ChanNil false 1 false))
    (CStart 0) [EvMakeChan; EvNewTicker 1; EvGo]
    [CReportFile 10 1; CReportDir 2; CReportFile 32 3; CReportDir 4; CReportDir 5]
    eq_refl eq_refl eq_refl).
Defined.


(** ** What no call sequence does *)

Lemma plain_zero : plain Stat_zero.
Proof. repeat split. Qed.

Lemma plain_Add s other : plain s -> plain (Add s other).
Proof.
  intros (HT & HB & Hv). repeat split; try done;
    cbn [Add Files Dirs Bytes Trees Blobs]; rewrite ?HT, ?HB; try done;
    apply wrap64_lt.
Qed.

Lemma plain_events_one (b : bool) e :
  (forall s, snapshot_of e = Some s -> plain s) ->
  plain_events (if b then [e] else []).
Proof.
  intros He. unfold plain_events. destruct b; [constructor; [exact He|]|]; constructor.
Qed.

(** One call on any instance with a plain total. *)
Lemma exec_plain q k p' tr :
  plain (cur q) -> exec k (Some q) = Ok (p', tr) ->
  exists q', p' = Some q' /\ plain (cur q') /\ plain_events tr.
Proof.
  intros Hp He. destruct (running q) eqn:Hr.
  - destruct k; cbn [exec] in He; unfold ReportFile, ReportDir in He;
      rewrite ?Start_running, ?Report_running, ?Reset_running in He by done;
      try discriminate He.
    1-3: injection He as <- <-; eexists; (split; [reflexivity|]);
         (split; [destruct q; cbn; by apply plain_Add|]);
         apply plain_events_one; intros s' [= <-]; by apply plain_Add.
    + injection He as <- <-. eexists. split; [reflexivity|].
      split; [destruct q; cbn; apply plain_zero|constructor].
    + destruct q as [upd dn total st tk ch fired iv r]. cbn in Hr, Hp. subst r.
      destruct fired, ch; cbn in He; try discriminate He;
        destruct dn; cbn in He; injection He as <- <-;
        eexists; (split; [reflexivity|]); (split; [done|]);
        unfold plain_events; repeat (constructor; [by intros s' [= <-]|]);
        constructor.
  - destruct k; cbn [exec] in He; unfold ReportFile, ReportDir in He;
      rewrite ?Report_stopped, ?Reset_stopped, ?Done_stopped in He by done;
      try discriminate He.
    destruct (Z.leb_spec (d q) 0) as [Hle|Hlt].
    + by rewrite Start_stopped_bad_interval in He by done.
    + rewrite Start_stopped in He by done. injection He as <- <-.
      eexists. split; [reflexivity|]. split; [apply plain_zero|].
      unfold plain_events. repeat (constructor; [done|]). constructor.
Qed.

Lemma execs_plain ks : forall q p' tr,
  plain (cur q) -> execs ks (Some q) = Ok (p', tr) ->
  exists q', p' = Some q' /\ plain (cur q') /\ plain_events tr.
Proof.
  induction ks as [|k ks IH]; intros q p' tr Hp He.
  - injection He as <- <-. exists q. split; [done|]. split; [done|]. constructor.
  - cbn [execs] in He.
    destruct (exec k (Some q)) as [[p1 t1]|] eqn:E1; [|done].
    destruct (exec_plain _ _ _ _ Hp E1) as (q1 & -> & Hp1 & Ht1).
    destruct (execs ks (Some q1)) as [[p2 t2]|] eqn:E2; [|done].
    injection He as <- <-.
    destruct (IH _ _ _ Hp1 E2) as (q2 & -> & Hp2 & Ht2).
    exists q2. split; [done|]. split; [done|]. by apply Forall_app.
Qed.

(** X5.  A [Progress] never counts trees or blobs: whatever calls are
    made on an instance from [NewProgress], with or without callbacks,
    if they all return then [Current] has [Trees] and [Blobs] zero, and
    so has every total handed to [OnUpdate] or [OnDone] on the way,
    whatever the deltas carry in these two fields. *)
Theorem never_counts_Trees_Blobs
    (upd dn : bool) (iv : Z) (ks : list call) (p : option Progress) (tr : list event) :
  execs ks (Some (new_instance upd dn iv)) = Ok (p, tr) ->
  (exists s, Current p = Ok s /\ Trees s = 0 /\ Blobs s = 0) /\
  (forall e s, e ∈ tr -> snapshot_of e = Some s -> Trees s = 0 /\ Blobs s = 0).
Proof.
  intros He.
  destruct (execs_plain ks (new_instance upd dn iv) p tr plain_zero He)
    as (q & -> & (HT & HB & _) & Htr).
  split; [by exists (cur q)|].
  intros e s Hin Hs. unfold plain_events in Htr. rewrite Forall_forall in Htr.
  by destruct (Htr e Hin s Hs) as (? & ? & _).
Qed.

Lemma never_counts_Trees_Blobs_witness :
  exists s,
    Current (Some (set_cur (mkStat 1 0 2 0 0) (started 0 (new_instance true true 1))))
      = Ok s /\
    Trees s = 0 /\ Blobs s = 0.
Proof.
  exact (proj1 (never_counts_Trees_Blobs true true 1
                  [CStart 0; CReport (mkStat 1 0 2 5 6) 1]
                  (Some (set_cur (mkStat 1 0 2 0 0)
                           (started 0 (new_instance true true 1))))
                  [EvMakeChan; EvNewTicker 1; EvGo;
                   EvUpdate (mkStat 1 0 2 0 0) 1 false]
                  eq_refl)).
Defined.

(** ** What a [Start] makes, a [Done] closes *)

Lemma occurrences_app {A} (P : A -> bool) l1 l2 :
  occurrences P (l1 ++ l2) = (occurrences P l1 + occurrences P l2)%nat.
Proof. unfold occurrences. by rewrite List.filter_app, length_app. Qed.

Lemma occurrences_cons {A} (P : A -> bool) x l :
  occurrences P (x :: l) = (held (P x) + occurrences P l)%nat.
Proof. unfold occurrences. cbn [List.filter]. by destruct (P x). Qed.

(** The events of one call that returns. *)
Lemma exec_events q k p' tr :
  consistent q -> exec k (Some q) = Ok (p', tr) ->
  occurrences is_EvMakeChan tr = held (is_Start k) /\
  occurrences is_EvNewTicker tr = held (is_Start k) /\
  occurrences is_EvGo tr = held (is_Start k) /\
  occurrences is_EvClose tr = held (is_Done k).
Proof.
  intros Hq He. pose proof (exec_consistent q k Hq) as Hk.
  destruct (running q), k; rewrite Hk in He; try discriminate He;
    injection He as <- <-; try destruct (OnUpdate q); try destruct (OnDone q); done.
Qed.

Lemma execs_balance ks : forall q p' tr,
  consistent q -> execs ks (Some q) = Ok (p', tr) ->
  exists q', p' = Some q' /\
    occurrences is_EvMakeChan tr = occurrences is_Start ks /\
    occurrences is_EvNewTicker tr = occurrences is_Start ks /\
    occurrences is_EvGo tr = occurrences is_Start ks /\
    occurrences is_EvClose tr = occurrences is_Done ks /\
    (occurrences is_Start ks + held (running q)
       = occurrences is_Done ks + held (running q'))%nat.
Proof.
  induction ks as [|k ks IH]; intros q p' tr Hq He.
  - injection He as <- <-. by exists q.
  - cbn [execs] in He.
    destruct (exec k (Some q)) as [[p1 t1]|] eqn:E1; [|done].
    destruct (exec_Ok _ _ _ _ Hq E1) as (q1 & -> & Hq1 & Hp & Hr1).
    destruct (exec_events _ _ _ _ Hq E1) as (E1a & E1b & E1c & E1d).
    destruct (execs ks (Some q1)) as [[p2 t2]|] eqn:E2; [|done].
    injection He as <- <-.
    destruct (IH _ _ _ Hq1 E2) as (q2 & -> & Ha & Hb & Hc & Hd & Hbal).
    exists q2. split; [done|].
    rewrite !occurrences_app, !occurrences_cons, E1a, E1b, E1c, E1d, Ha, Hb, Hc, Hd.
    repeat split; try done.
    rewrite Hr1 in Hbal. revert Hp Hbal.
    destruct k, (running q), (running q2); cbn; try done; lia.
Qed.

(** X6.  Whatever calls are made on an instance from [NewProgress], if
    they all return then every [Start] has made exactly one channel, one
    ticker and one reporter goroutine, every [Done] has closed a channel
    exactly once, and the [Start]s outnumber the [Done]s by one while
    the instance is running and by none when it is not: no channel is
    closed twice, none is left open by a stopped instance. *)
Theorem Start_Done_balance
    (upd dn : bool) (iv : Z) (ks : list call) (p : option Progress) (tr : list event) :
  execs ks (Some (new_instance upd dn iv)) = Ok (p, tr) ->
  exists q, p = Some q /\
    occurrences is_EvMakeChan tr = occurrences is_Start ks /\
    occurrences is_EvNewTicker tr = occurrences is_Start ks /\
    occurrences is_EvGo tr = occurrences is_Start ks /\
    occurrences is_EvClose tr = occurrences is_Done ks /\
    occurrences is_Start ks = (occurrences is_Done ks + held (running q))%nat.
Proof.
  intros He. destruct (Z.leb_spec iv 0) as [Hle|Hlt].
  - destruct ks as [|k ks].
    + injection He as <- <-. by eexists.
    + destruct (first_call_panics upd dn iv k ks Hle) as (msg & Hm & _).
      rewrite Hm in He. discriminate He.
  - destruct (execs_balance ks _ p tr (consistent_fresh upd dn iv Hlt) He)
      as (q & -> & Ha & Hb & Hc & Hd & Hbal).
    exists q. repeat split; try done. cbn in Hbal. lia.
Qed.

Lemma Start_Done_balance_witness :
  exists q,
    occurrences is_EvMakeChan [EvMakeChan; EvNewTicker 1; EvGo; EvClose;
                               EvMakeChan; EvNewTicker 1; EvGo] = 2%nat /\
    occurrences is_EvClose [EvMakeChan; EvNewTicker 1; EvGo; EvClose;
                            EvMakeChan; EvNewTicker 1; EvGo] = 1%nat /\
    running q = true.
Proof.
  destruct (Start_Done_balance false false 1 [CStart 0; CReset; CDone 1; CStart 2]
              (Some (started 2 (new_instance false false 1)))
              [EvMakeChan; EvNewTicker 1; EvGo; EvClose; EvMakeChan; EvNewTicker 1; EvGo])
    as (q & Hq & Ha & _ & _ & Hd & Hbal).
  - vm_compute. reflexivity.
  - exists q. split; [exact Ha|]. split; [exact Hd|].
    injection Hq as <-. reflexivity.
Defined.

(** * Further properties, part 2: goroutines *)

(** ** The two mutexes *)

Lemma count_outside P ts :
  (forall t, outside t = true -> P t = false) ->
  forallb outside ts = true -> count P ts = 0%nat.
Proof.
  intros HP. induction ts as [|t ts IH]; [done|]. cbn [forallb].
  intros [Ht Hts]%andb_prop. by rewrite count_cons, HP, IH.
Qed.

Lemma locks_ok_step mv cfg cfg' :
  locks_ok cfg -> step mv cfg = Some cfg' -> locks_ok cfg'.
Proof.
  intros [Hm Hall] Hs. split; [by eapply mutex_ok_step|].
  apply step_Some in Hs as (t & σ' & t' & Hi & Hts & ->).
  destruct cfg as [σ ts]. cbn [fst snd] in *.
  apply forallb_insert; [done|].
  destruct Hm as [Mc Mf]. cbn [fst snd] in Mc, Mf.
  pose proof (fun H => count_lookup in_cur ts _ t Hi H) as Lc.
  pose proof (fun H => count_lookup in_fn ts _ t Hi H) as Lf.
  destruct (bad_unlock t') eqn:Hb; [|done].
  destruct t' as [| | | |msg]; try done.
  thread_cases Hts; try done;
    try match goal with
        | H : worker ?ds = Panicked _ |- _ => by destruct ds
        end.
  all: cbn in *.
  all: try (specialize (Lc eq_refl); rewrite Mc in Lc; cbn in Lc; lia).
  all: try (specialize (Lf eq_refl); rewrite Mf in Lf; cbn in Lf; lia).
Qed.

(** X7.  Take any pool of goroutines, each in [Report], in [reporter]
    or in [Done], that starts with both mutexes free and everybody
    outside the critical sections.  However the goroutines are
    scheduled, at most one of them is between [p.curM.Lock()] and
    [p.curM.Unlock()], at most one is between [p.fnM.Lock()] and
    [p.fnM.Unlock()], so that [OnUpdate] and [OnDone] never run at the
    same time, and nobody unlocks a mutex that is not held. *)
Theorem callbacks_serialised (q : Progress) (pool : list thread) (sched : list move) :
  forallb outside pool = true ->
  forallb (fun t => negb (bad_unlock t)) pool = true ->
  (count in_cur (run sched (mkShared q false false (start q) [], pool)).2 <= 1)%nat /\
  (count in_fn (run sched (mkShared q false false (start q) [], pool)).2 <= 1)%nat /\
  forallb (fun t => negb (bad_unlock t))
          (run sched (mkShared q false false (start q) [], pool)).2 = true.
Proof.
  intros Hout Hbad.
  assert (Hinv : locks_ok (run sched (mkShared q false false (start q) [], pool))).
  { apply (run_invariant locks_ok).
    - intros mv cfg cfg'. apply locks_ok_step.
    - split; [|done]. split; cbn [fst snd curM fnM held];
        apply count_outside; try done; intros t; unfold outside;
        destruct (in_cur t), (in_fn t); done. }
  destruct Hinv as [[Mc Mf] Hall]. rewrite Mc, Mf.
  unfold held. repeat split; try done; case_match; lia.
Qed.

Lemma callbacks_serialised_witness :
  (count in_fn (run (map (fun i => mkMove i true 1)
                         [1; 1; 1; 1; 1; 1; 1; 1; 1; 1; 1; 1; 2; 2; 2; 2; 2; 2; 2; 2;
                          2; 2; 2; 2; 0; 0; 0; 0; 0; 0; 1; 2; 0; 3; 3; 3; 3]%nat)
                    (mkShared (started 0 (new_instance true true 1)) false false 0 [],
                     [InReporter PP_select;
                      worker [mkStat 1 0 4 0 0]; worker [mkStat 0 1 0 0 0];
                      InDone DP_check])).2 <= 1)%nat.
Proof.
  exact (proj1 (proj2 (callbacks_serialised (started 0 (new_instance true true 1))
                  [InReporter PP_select;
                   worker [mkStat 1 0 4 0 0]; worker [mkStat 0 1 0 0 0];
                   InDone DP_check]
                  (map (fun i => mkMove i true 1)
                     [1; 1; 1; 1; 1; 1; 1; 1; 1; 1; 1; 1; 2; 2; 2; 2; 2; 2; 2; 2;
                      2; 2; 2; 2; 0; 0; 0; 0; 0; 0; 1; 2; 0; 3; 3; 3; 3]%nat)
                  eq_refl eq_refl))).
Defined.

(** ** Concurrent [Report] calls with any deltas *)

(** X8.  Goroutines call [Report] concurrently, each with its own
    list of deltas, on a running instance, next to its reporter.
    However they are scheduled, nobody panics; once all calls have
    returned, [Current], then and at any later moment, returns the old
    total plus the sum of all deltas in [Files], [Dirs] and [Bytes]
    (modulo [2^64]) and the old [Trees] and [Blobs]; and every schedule
    can be continued until all calls have returned. *)
Theorem concurrent_Report_totals
    (q : Progress) (dss : list (list Stat)) (sched : list move) :
  armed q -> Stat_valid (cur q) ->
  nobody_panicked (run sched (reporting q dss)) = true /\
  (reports_finished (run sched (reporting q dss)) = true ->
   forall more,
     Current (Some (obj (run (sched ++ more) (reporting q dss)).1)) =
       Ok (mkStat (wrap64 (Files (cur q) + sum_all CFiles dss))
                  (wrap64 (Dirs (cur q) + sum_all CDirs dss))
                  (wrap64 (Bytes (cur q) + sum_all CBytes dss))
                  (Trees (cur q)) (Blobs (cur q)))) /\
  exists more, reports_finished (run (sched ++ more) (reporting q dss)) = true.
Proof.
  intros (Hr & _ & Hcl & Hc) Hv.
  destruct (concurrent_reports_sum q dss sched Hr Hc Hcl Hv) as (Hp & Hsum & Hmore).
  split; [exact Hp|]. split; [|exact Hmore].
  intros Hfin more.
  pose proof (Hsum Hfin more CFiles) as HF.
  pose proof (Hsum Hfin more CDirs) as HD.
  pose proof (Hsum Hfin more CBytes) as HB.
  assert (Hinv : report_ok (fun f => wrap64 (get f (cur q) + sum_all f dss))
                   (Trees (cur q), Blobs (cur q))
                   (run (sched ++ more) (reporting q dss))).
  { apply (run_invariant (report_ok _ _)).
    - intros mv cfg cfg'. apply report_ok_step.
    - by apply report_ok_init. }
  destruct Hinv as (_ & _ & _ & _ & _ & _ & HT & HL & _).
  cbn [get fst snd] in *. cbn [Current]. f_equal.
  destruct (cur (obj (run (sched ++ more) (reporting q dss)).1)).
  cbn in *. congruence.
Qed.

Lemma concurrent_Report_totals_witness :
  Current (Some (obj (run
      (map (fun i => mkMove i true 1)
           [1; 1; 2; 0; 2; 1; 2; 0; 0; 1; 2; 1; 1; 1; 1; 1; 1; 1; 1; 1; 1; 1; 1; 1; 1;
            2; 2; 2; 0; 0; 0; 0; 0; 0; 2; 2; 2; 2; 2; 2; 2; 2; 2; 2; 2; 2; 2]%nat ++ [])
      (reporting (set_cur (mkStat 5 5 5 0 0) (started 0 (new_instance true true 1)))
                 [[mkStat 1 0 10 0 0]; [mkStat 0 1 0 0 0]])).1))
  = Ok (mkStat 6 6 15 0 0).
Proof.
  refine (proj1 (proj2 (concurrent_Report_totals
            (set_cur (mkStat 5 5 5 0 0) (started 0 (new_instance true true 1)))
            [[mkStat 1 0 10 0 0]; [mkStat 0 1 0 0 0]]
            (map (fun i => mkMove i true 1)
               [1; 1; 2; 0; 2; 1; 2; 0; 0; 1; 2; 1; 1; 1; 1; 1; 1; 1; 1; 1; 1; 1; 1; 1; 1;
                2; 2; 2; 0; 0; 0; 0; 0; 0; 2; 2; 2; 2; 2; 2; 2; 2; 2; 2; 2; 2; 2]%nat)
            _ _)) eq_refl []).
  - repeat split. by exists 1%Z.
  - repeat split.
Defined.

(** ** The reporter after [Done] *)

#[local] Arguments occurrences : simpl never.

Lemma occurrences_log {A} (P : A -> bool) l x :
  occurrences P (l ++ [x]) = (occurrences P l + held (P x))%nat.
Proof. rewrite occurrences_app. unfold occurrences. cbn. by destruct (P x). Qed.

Lemma closed_was_logged cfg :
  close_ok cfg -> cancel (obj cfg.1) = ChanClosed -> EvClose ∈ trace cfg.1.
Proof.
  unfold close_ok. destruct (o (obj cfg.1)); intros [Hc Hcl] Hch; [|congruence].
  assert (Hin : In EvClose (closes (trace cfg.1))) by (rewrite Hcl; by left).
  apply List.filter_In in Hin as [Hin _]. by apply list_elem_of_In.
Qed.

Lemma reporter_ok_step q mv cfg cfg' :
  reporter_ok q cfg -> step mv cfg = Some cfg' -> reporter_ok q cfg'.
Proof.
  intros [Hok Hst] Hs.
  pose proof (shutdown_ok_step _ _ _ _ Hok Hs) as Hok'.
  split; [done|].
  destruct Hok as (td & tr & Hts & _ & _ & Hd & Hrp & Hcl & _).
  apply step_Some in Hs as (t & σ' & t' & Hi & Hstep & ->).
  destruct cfg as [σ ts]. cbn [fst snd] in *. subst ts. cbn in Hst.
  destruct (who mv) as [|[|k]]; [| |done]; injection Hi as <-.
  - (* a move of Done: it logs no stop and never reopens the channel *)
    change (<[0%nat:=t']> [td; tr] !! 1%nat) with (Some tr).
    assert (Hkeep :
      (cancel (obj σ) = ChanClosed -> cancel (obj σ') = ChanClosed) /\
      exists l, trace σ' = trace σ ++ l /\ occurrences is_EvTickerStop l = 0%nat).
    { destruct td as [|?|pc| |]; try done.
      destruct pc; cbn in Hstep; repeat case_match; simplify_eq; cbn;
        (split; [try done; congruence|]);
        first [ by exists []; rewrite app_nil_r | by eexists [_] ]. }
    destruct Hkeep as [Hch (l & Htr & Hl)].
    destruct tr as [|pc| | |]; try done.
    + destruct pc; cbn in *; rewrite Htr, occurrences_app, Hl;
        try (rewrite Nat.add_0_r; done).
      destruct Hst as [Hc H0]. split; [by apply Hch|]. by rewrite H0.
    + cbn in *. destruct Hst as (H1 & pre & post & Hpre & Hin).
      rewrite Htr, occurrences_app, Hl, H1. split; [done|].
      exists pre, (post ++ l). split; [|done]. by rewrite Hpre, <- app_assoc.
  - (* a move of the reporter *)
    change (<[1%nat:=t']> [td; tr] !! 1%nat) with (Some t').
    assert (Hnp : is_Panicked t' = false).
    { destruct Hok' as (td' & tr' & Heq & _ & _ & _ & Hrp' & _).
      cbn in Heq. injection Heq as <- <-. by destruct t'. }
    destruct tr as [|pc| | |]; try done.
    destruct pc; cbn in Hstep; repeat case_match; simplify_eq; cbn in *;
      rewrite ?occurrences_log; cbn [is_EvTickerStop held];
      rewrite ?Nat.add_0_r; try done.
    all: destruct Hst as [Hc H0]; rewrite H0; (split; [done|]);
      exists (trace σ), []; (split; [done|]);
      by apply (closed_was_logged (σ, [td; InReporter PP_stop])).
Qed.

Lemma reporter_ok_init q : armed q -> reporter_ok q (shutting_down q).
Proof. intros Ha. split; [by apply shutdown_ok_init|done]. Qed.

(** X9.  One call of [Done] next to the reporter goroutine, under every
    interleaving.  Nobody panics.  As long as the reporter has not
    returned, its ticker runs and has not been stopped.  When it has
    returned, the ticker is stopped and was stopped exactly once, after
    [Done] had closed the channel.  And every interleaving can be
    continued until both [Done] and the reporter have returned: the
    goroutine that [Start] launched is not left behind. *)
Theorem reporter_stops_after_Done (q : Progress) (sched : list move) :
  armed q ->
  nobody_panicked (run sched (shutting_down q)) = true /\
  (forall pc, (run sched (shutting_down q)).2 !! 1%nat = Some (InReporter pc) ->
     (exists iv, c (obj (run sched (shutting_down q)).1) = TickerRunning iv) /\
     occurrences is_EvTickerStop (trace (run sched (shutting_down q)).1) = 0%nat) /\
  ((run sched (shutting_down q)).2 !! 1%nat = Some Returned ->
     c (obj (run sched (shutting_down q)).1) = TickerStopped /\
     occurrences is_EvTickerStop (trace (run sched (shutting_down q)).1) = 1%nat /\
     exists pre post,
       trace (run sched (shutting_down q)).1 = pre ++ EvTickerStop :: post /\
       EvClose ∈ pre) /\
  exists more, all_returned (run (sched ++ more) (shutting_down q)) = true.
Proof.
  intros Ha.
  assert (Hinv : forall sched', reporter_ok q (run sched' (shutting_down q))).
  { intros sched'. apply (run_invariant (reporter_ok q)).
    - intros mv cfg cfg'. apply reporter_ok_step.
    - by apply reporter_ok_init. }
  destruct (Hinv sched) as [(td & tr & Hts & _ & _ & Hd & Hrp & _) Hst].
  rewrite Hts in *. cbn in Hst.
  split; [|split; [|split]].
  - unfold nobody_panicked. rewrite Hts. cbn.
    destruct td as [|?|[]| |], tr as [|?| | |]; done.
  - intros pc [= ->]. split; [exact Hrp|]. by destruct pc; try destruct Hst.
  - intros [= ->]. split; [exact Hrp|exact Hst].
  - destruct (runs_to_completion (shutdown_ok q) all_returned)
      with (cfg := run sched (shutting_down q)) as [more Hmore].
    + intros mv cfg cfg'. apply shutdown_ok_step.
    + apply shutdown_progress.
    + apply Hinv.
    + exists more. by rewrite run_app.
Qed.

Lemma reporter_stops_after_Done_witness :
  c (obj (run (mkMove 1 true 5 ::
               map (fun i => mkMove i false 1)
                   [1; 1; 0; 0; 1; 1; 0; 1; 1; 1; 0; 0; 0; 0; 0; 0; 1; 1]%nat)
              (shutting_down (started 0 (new_instance true true 1)))).1)
  = TickerStopped.
Proof.
  refine (proj1 (proj1 (proj2 (proj2 (reporter_stops_after_Done
            (started 0 (new_instance true true 1))
            (mkMove 1 true 5 ::
             map (fun i => mkMove i false 1)
                 [1; 1; 0; 0; 1; 1; 0; 1; 1; 1; 0; 0; 0; 0; 0; 0; 1; 1]%nat) _)))
          eq_refl)).
  repeat split. by exists 1%Z.
Defined.

(** ** The reporter while the run is open *)

Lemma ticking_step q n mv cfg cfg' :
  armed q -> ticking q n cfg -> step mv cfg = Some cfg' ->
  ticking q (n + held (tick mv)) cfg'.
Proof.
  intros (_ & _ & Hch & iv & Hc) (Hobj & pc & Hts & Hpc & Hsn & Hcall & Mc & Mf & Htr & Hno & Hn) Hs.
  apply step_Some in Hs as (t & σ' & t' & Hi & Hstep & ->).
  destruct cfg as [σ ts]. cbn [fst snd] in *. subst ts.
  destruct (who mv) as [|k]; [|done]. injection Hi as <-.
  change (<[0%nat:=t']> [InReporter pc]) with [t'].
  unfold ticking. cbn [fst snd].
  destruct pc; cbn in Hstep; rewrite ?Hobj, ?Hc, ?Hch in Hstep;
    repeat case_match; simplify_eq; cbn in *;
    (split; [done|]); eexists; (split; [reflexivity|]); cbn;
    rewrite ?length_app; cbn;
    repeat split; try done; try lia; try congruence.
  all: try (intros s' [= <-]; by rewrite ?Hobj).
  all: try (apply Forall_app; split; [done|]; constructor; [|constructor];
            eexists; by rewrite (Hsn _ eq_refl)).
  all: try (intros Hf; rewrite ?Hobj in *; specialize (Hcall eq_refl); congruence).
  all: try (intros Hf; rewrite ?Hobj in *; congruence).
Qed.

Lemma ticking_run q sched : forall n cfg,
  armed q -> ticking q n cfg -> ticking q (n + ticks sched) (run sched cfg).
Proof.
  induction sched as [|mv sched IH]; intros n cfg Ha Ht.
  - unfold ticks, occurrences. cbn. by rewrite Nat.add_0_r.
  - cbn [run]. unfold ticks. rewrite occurrences_cons. fold (ticks sched).
    destruct (step mv cfg) as [cfg'|] eqn:Hs.
    + replace (n + (held (tick mv) + ticks sched))%nat
        with ((n + held (tick mv)) + ticks sched)%nat by lia.
      apply IH; [done|]. by eapply ticking_step.
    + specialize (IH n cfg Ha Ht).
      destruct IH as (Hobj & pc & Hts & Hpc & Hsn & Hcall & Mc & Mf & Htr & Hno & Hn).
      split; [done|]. exists pc. repeat split; try done. lia.
Qed.

(** X10.  The reporter goroutine of a running instance, as long as
    nobody calls [Done]: however it is scheduled it never returns and
    never panics, it changes no field of the instance, and all it does is
    call [OnUpdate] with the current total and [isTick = true], at most
    once per tick delivered, and not at all when [OnUpdate] is not
    set. *)
Theorem reporter_only_reports (q : Progress) (sched : list move) :
  armed q ->
  obj (run sched (reporter_alone q)).1 = q /\
  (exists pc, (run sched (reporter_alone q)).2 = [InReporter pc]) /\
  (forall e, e ∈ trace (run sched (reporter_alone q)).1 ->
     exists rt, e = EvUpdate (cur q) rt true) /\
  (length (trace (run sched (reporter_alone q)).1) <= ticks sched)%nat /\
  (OnUpdate q = false -> trace (run sched (reporter_alone q)).1 = []).
Proof.
  intros Ha.
  assert (H0 : ticking q 0 (reporter_alone q)).
  { split; [done|]. exists PP_select. repeat split; done. }
  destruct (ticking_run q sched 0%nat _ Ha H0)
    as (Hobj & pc & Hts & Hpc & Hsn & Hcall & Mc & Mf & Htr & Hno & Hn).
  split; [done|]. split; [by exists pc|]. split; [|split; [lia|done]].
  intros e He. rewrite Forall_forall in Htr. by apply Htr.
Qed.

Lemma reporter_only_reports_witness :
  (length (trace (run (mkMove 0 true 5 :: map (fun i => mkMove i false 1)
                                              [0; 0; 0; 0; 0; 0; 0; 0; 0]%nat)
                      (reporter_alone (started 0 (new_instance true true 1)))).1) <= 1)%nat.
Proof.
  exact (proj1 (proj2 (proj2 (proj2 (reporter_only_reports
           (started 0 (new_instance true true 1))
           (mkMove 0 true 5 :: map (fun i => mkMove i false 1)
                                   [0; 0; 0; 0; 0; 0; 0; 0; 0]%nat)
           (conj eq_refl (conj eq_refl (conj eq_refl (ex_intro _ 1%Z eq_refl)))))))) ).
Defined.

(** ** Snapshots are whole *)

#[local] Arguments all_todo : simpl never.
#[local] Arguments total_unstored : simpl never.

Lemma all_todo_cons t ts : all_todo (t :: ts) = todo t ++ all_todo ts.
Proof. reflexivity. Qed.

Lemma total_unstored_cons f t ts :
  total_unstored f (t :: ts) = unstored f t + total_unstored f ts.
Proof. reflexivity. Qed.

Lemma all_todo_insert_same ts : forall i t t',
  ts !! i = Some t -> todo t' = todo t -> all_todo (<[i:=t']> ts) = all_todo ts.
Proof.
  induction ts as [|u ts IH]; intros [|i] t t' Hi Ht; try discriminate.
  - injection Hi as ->. change (<[0%nat:=t']> (t :: ts)) with (t' :: ts).
    by rewrite !all_todo_cons, Ht.
  - change (<[S i:=t']> (u :: ts)) with (u :: <[i:=t']> ts).
    rewrite !all_todo_cons. f_equal. by apply (IH i t).
Qed.

Lemma all_todo_insert_take ts : forall i t t' x,
  ts !! i = Some t -> todo t = x :: todo t' ->
  all_todo ts ≡ₚ x :: all_todo (<[i:=t']> ts).
Proof.
  induction ts as [|u ts IH]; intros [|i] t t' x Hi Ht; try discriminate.
  - injection Hi as ->. change (<[0%nat:=t']> (t :: ts)) with (t' :: ts).
    by rewrite !all_todo_cons, Ht.
  - change (<[S i:=t']> (u :: ts)) with (u :: <[i:=t']> ts).
    rewrite !all_todo_cons, (IH i t t' x Hi Ht).
    by rewrite Permutation_middle.
Qed.

Lemma total_unstored_insert f ts : forall i t t',
  ts !! i = Some t ->
  total_unstored f (<[i:=t']> ts) + unstored f t
    = total_unstored f ts + unstored f t'.
Proof.
  induction ts as [|u ts IH]; intros [|i] t t' Hi; try discriminate.
  - injection Hi as ->. change (<[0%nat:=t']> (t :: ts)) with (t' :: ts).
    rewrite !total_unstored_cons. lia.
  - change (<[S i:=t']> (u :: ts)) with (u :: <[i:=t']> ts).
    rewrite !total_unstored_cons. specialize (IH i t t' Hi). lia.
Qed.

Lemma unstored_in_cur f t : in_cur t = false -> unstored f t = 0.
Proof. by destruct t as [[]| | | |]. Qed.

Lemma total_unstored_nobody f ts :
  count in_cur ts = 0%nat -> total_unstored f ts = 0.
Proof.
  induction ts as [|u ts IH]; [done|]. rewrite count_cons, total_unstored_cons.
  destruct (in_cur u) eqn:Hu; cbn [held]; [lia|]. intros H.
  rewrite unstored_in_cur, IH by (done || lia). done.
Qed.

(** Only the holder of [p.curM] has anything unwritten. *)
Lemma total_unstored_holder f ts : forall i t,
  ts !! i = Some t -> in_cur t = true -> (count in_cur ts <= 1)%nat ->
  total_unstored f ts = unstored f t.
Proof.
  induction ts as [|u ts IH]; intros [|i] t Hi Ht Hc; try discriminate.
  - injection Hi as ->. rewrite count_cons, Ht in Hc. cbn [held] in Hc.
    rewrite total_unstored_cons, total_unstored_nobody by lia. lia.
  - rewrite count_cons in Hc. pose proof (count_lookup in_cur ts i t Hi Ht).
    destruct (in_cur u) eqn:Hu; cbn [held] in Hc; [lia|].
    rewrite total_unstored_cons, unstored_in_cur by done.
    rewrite (IH i t) by (done || lia). done.
Qed.

Lemma wrap64_add_both a b x : wrap64 a = wrap64 b -> wrap64 (a + x) = wrap64 (b + x).
Proof. intros H. by rewrite <- (wrap64_add_l a), <- (wrap64_add_l b), H. Qed.

(** What one move does to the total, to what is to do and to what is
    unwritten. *)
Lemma move_effect tk σ t σ' t' :
  thread_step tk σ t = Some (σ', t') -> is_Panicked t' = false ->
  (cur (obj σ') = cur (obj σ) /\ todo t' = todo t /\
   forall f, unstored f t' = unstored f t) \/
  (exists s, todo t = s :: todo t' /\ cur (obj σ') = cur (obj σ) /\
     forall f, unstored f t = 0 /\ unstored f t' = get f s) \/
  (exists g tmp s rest,
     t = InReport (RP_store g tmp) s rest /\
     cur (obj σ') = put g (add64 tmp (get g s)) (cur (obj σ)) /\
     todo t' = todo t /\
     unstored g t = get g s /\ unstored g t' = 0 /\
     forall f, f <> g -> unstored f t' = unstored f t).
Proof.
  intros Hts Hnp.
  thread_cases Hts; try discriminate Hnp; cbn;
    try (left; repeat split; try done; by destruct rest);
    try (left; repeat split; try done; by destruct (obj σ)).
  - right; left. eexists. repeat split.
  - right; right. eexists _, _, _, _. repeat split; try done. by intros [].
  - right; right. eexists _, _, _, _. repeat split; try done. by intros [].
  - right; right. eexists _, _, _, _. repeat split; try done. by intros [].
Qed.

(** A copy of the total is taken under [p.curM], after the last write
    of an [Add]; otherwise a goroutine keeps the copy it has. *)
Lemma snap_effect tk σ t σ' t' s :
  thread_step tk σ t = Some (σ', t') -> snap_held t' = Some s ->
  snap_held t = Some s \/
  (s = cur (obj σ) /\ in_cur t = true /\ forall f, unstored f t = 0).
Proof.
  intros Hts Hs.
  thread_cases Hts; cbn in Hs; try discriminate Hs;
    try (injection Hs as <-); try (by left); try (by right);
    match goal with H : snap_held (worker ?ds) = _ |- _ => by destruct ds end.
Qed.

(** A callback is handed the copy its goroutine holds. *)
Lemma trace_effect tk σ t σ' t' :
  not_in_Done t = true -> thread_step tk σ t = Some (σ', t') ->
  trace σ' = trace σ \/
  exists e, trace σ' = trace σ ++ [e] /\
    forall s, snapshot_of e = Some s -> snap_held t = Some s.
Proof.
  intros Ht Hts.
  thread_cases Hts; try discriminate Ht; cbn; try (by left);
    right; eexists; (split; [reflexivity|]); done.
Qed.

Lemma whole_ok_step base dss mv cfg cfg' :
  whole_ok base dss cfg -> step mv cfg = Some cfg' -> whole_ok base dss cfg'.
Proof.
  intros (Hok & (applied & HP & HC) & HS & HT) Hs.
  pose proof (report_ok_step _ _ _ _ _ Hok Hs) as Hok'.
  split; [done|].
  pose proof Hok as (_ & _ & _ & Hall & _ & Htmp & _ & _ & Hv & [Mc _]).
  pose proof Hok' as (_ & _ & _ & Hall' & _).
  apply step_Some in Hs as (t & σ' & t' & Hi & Hts & ->).
  destruct cfg as [σ ts]. cbn [fst snd] in *.
  pose proof (forallb_lookup _ _ _ _ Hall Hi) as Ht.
  assert (Hnp : is_Panicked t' = false).
  { assert (Hlt : (who mv < length ts)%nat) by (by eapply lookup_lt_Some).
    pose proof (forallb_lookup _ _ (who mv) t' Hall'
                  (list_lookup_insert_eq _ _ _ Hlt)) as Ht'.
    by destruct t'. }
  assert (Hc1 : (count in_cur ts <= 1)%nat).
  { cbn [fst snd] in Mc. rewrite Mc. unfold held. case_match; lia. }
  (* the total is whole whenever its holder has written everything *)
  assert (Hcur : in_cur t = true -> (forall f, unstored f t = 0) ->
                 whole base (concat dss) (cur (obj σ))).
  { intros Hin Hun. exists applied. split; [|split].
    - rewrite <- HP. by apply submseteq_inserts_r.
    - intros f. specialize (HC f).
      rewrite (total_unstored_holder f ts _ t Hi Hin Hc1), Hun, N.add_0_r in HC.
      rewrite <- HC. symmetry. apply wrap64_small, Hv.
    - by destruct Hok as (_ & _ & _ & _ & _ & _ & HTr & HBl & _). }
  split; [|split].
  - (* applied and unwritten *)
    destruct (move_effect _ _ _ _ _ Hts Hnp)
      as [(Ec & Et & Eu)|[(s & Et & Ec & Eu)|(g & tmp & s & rest & -> & Ec & Et & Eg & Eg' & Eu)]];
      cbn [advance obj] in Ec.
    + exists applied. split.
      * by rewrite (all_todo_insert_same ts _ t t' Hi Et).
      * intros f. pose proof (total_unstored_insert f ts _ t t' Hi) as E.
        rewrite Ec, <- HC. f_equal. rewrite Eu in E. lia.
    + exists (s :: applied). split.
      * rewrite <- HP, (all_todo_insert_take ts _ t t' s Hi Et).
        by rewrite <- Permutation_middle.
      * intros f. pose proof (total_unstored_insert f ts _ t t' Hi) as E.
        destruct (Eu f) as [E0 E1]. rewrite E0, E1, N.add_0_r in E.
        rewrite Ec, E.
        change (sum_counter f (s :: applied)) with (get f s + sum_counter f applied).
        replace (get f (cur (obj σ)) + (total_unstored f ts + get f s))
          with (get f (cur (obj σ)) + total_unstored f ts + get f s) by lia.
        replace (get f base + (get f s + sum_counter f applied))
          with (get f base + sum_counter f applied + get f s) by lia.
        by apply wrap64_add_both.
    + exists applied. split.
      * by rewrite (all_todo_insert_same ts _ _ t' Hi Et).
      * intros f. pose proof (total_unstored_insert f ts _ _ t' Hi) as E.
        rewrite Ec, <- HC. specialize (Htmp _ _ _ _ _ Hi). subst tmp.
        destruct (decide (counter_index f = counter_index g)) as [Efg|Efg].
        -- assert (f = g) as -> by (by destruct f, g).
           rewrite get_put_eq. unfold add64. rewrite wrap64_add_l.
           f_equal. rewrite Eg, Eg' in E. lia.
        -- assert (f <> g) by congruence.
           rewrite get_put_ne by done. f_equal. rewrite Eu in E by done. lia.
  - (* copies held *)
    intros j u s Hj Hu.
    destruct (decide (j = who mv)) as [->|Hne].
    + rewrite list_lookup_insert_eq in Hj by (by eapply lookup_lt_Some).
      injection Hj as <-.
      destruct (snap_effect _ _ _ _ _ _ Hts Hu) as [Hold|(-> & Hin & Hun)];
        cbn [advance obj].
      * by apply (HS _ _ _ Hi).
      * by apply Hcur.
    + rewrite list_lookup_insert_ne in Hj by done. by apply (HS j u).
  - (* copies handed to callbacks *)
    intros e s He Hsn.
    assert (Hnd : not_in_Done t = true) by (by destruct t as [|[]| | |]).
    destruct (trace_effect _ _ _ _ _ Hnd Hts) as [Etr|(e' & Etr & He')];
      cbn [advance trace] in Etr.
    + rewrite Etr in He. by apply (HT e).
    + rewrite Etr in He. cbn in He. apply elem_of_app in He as [He|He].
      * by apply (HT e).
      * apply list_elem_of_singleton in He as ->. apply (HS _ _ _ Hi). by apply He'.
Qed.

Lemma all_todo_workers dss : all_todo (map worker dss) = concat dss.
Proof.
  induction dss as [|ds dss IH]; [done|].
  cbn [map concat]. rewrite all_todo_cons, IH. by destruct ds.
Qed.

Lemma whole_ok_init q dss :
  armed q -> Stat_valid (cur q) -> whole_ok (cur q) dss (reporting q dss).
Proof.
  intros (Hr & _ & Hcl & Hc) Hv.
  pose proof (report_ok_init q dss Hr Hc Hcl Hv) as Hok.
  split; [exact Hok|]. split; [|split].
  - exists []. split.
    + unfold reporting. cbn [fst snd app]. by rewrite all_todo_cons, all_todo_workers.
    + intros f. f_equal. f_equal. apply total_unstored_nobody.
      destruct Hok as (_ & _ & _ & _ & _ & _ & _ & _ & _ & [Mc _]). exact Mc.
  - intros [|i] t s Hi Hs; cbn in Hi.
    + by injection Hi as <-.
    + apply lookup_workers in Hi as [[|s' ds] ->]; discriminate Hs.
  - intros e s He. cbn in He. by apply not_elem_of_nil in He.
Qed.

(** X11.  Goroutines call [Report] concurrently on a running instance,
    next to its reporter.  However they are scheduled, every total that
    [OnUpdate] is handed, by a [Report] or by a tick, is the total the
    instance had to begin with plus the sum of some of the reported
    deltas, each of them counted in all of [Files], [Dirs] and [Bytes]
    or in none: no callback sees an [Add] half done. *)
Theorem snapshots_are_whole
    (q : Progress) (dss : list (list Stat)) (sched : list move) (e : event) (s : Stat) :
  armed q -> Stat_valid (cur q) ->
  e ∈ trace (run sched (reporting q dss)).1 -> snapshot_of e = Some s ->
  exists ds,
    ds ⊆+ concat dss /\
    Files s = wrap64 (Files (cur q) + sum_counter CFiles ds) /\
    Dirs s = wrap64 (Dirs (cur q) + sum_counter CDirs ds) /\
    Bytes s = wrap64 (Bytes (cur q) + sum_counter CBytes ds) /\
    Trees s = Trees (cur q) /\ Blobs s = Blobs (cur q).
Proof.
  intros Ha Hv He Hs.
  assert (Hinv : whole_ok (cur q) dss (run sched (reporting q dss))).
  { apply (run_invariant (whole_ok (cur q) dss)).
    - intros mv cfg cfg'. apply whole_ok_step.
    - by apply whole_ok_init. }
  destruct Hinv as (_ & _ & _ & HT).
  destruct (HT e s He Hs) as (ds & Hsub & Hget & HTr & HBl).
  exists ds. split; [done|].
  split; [exact (Hget CFiles)|]. split; [exact (Hget CDirs)|].
  split; [exact (Hget CBytes)|]. done.
Qed.

Lemma snapshots_are_whole_witness :
  exists ds,
    ds ⊆+ [mkStat 1 0 10 0 0; mkStat 1 0 20 0 0] /\
    Files (mkStat 1 0 10 0 0) = wrap64 (0 + sum_counter CFiles ds) /\
    Dirs (mkStat 1 0 10 0 0) = wrap64 (0 + sum_counter CDirs ds) /\
    Bytes (mkStat 1 0 10 0 0) = wrap64 (0 + sum_counter CBytes ds) /\
    Trees (mkStat 1 0 10 0 0) = 0 /\ Blobs (mkStat 1 0 10 0 0) = 0.
Proof.
  refine (snapshots_are_whole (started 0 (new_instance true true 1))
            [[mkStat 1 0 10 0 0]; [mkStat 1 0 20 0 0]]
            (map (fun i => mkMove i false 1)
                 [1; 1; 2; 1; 1; 1; 1; 1; 1; 1; 1; 2; 2; 2; 1; 1; 1; 1]%nat)
            (EvUpdate (mkStat 1 0 10 0 0) 17 false) (mkStat 1 0 10 0 0)
            _ _ _ eq_refl).
  - repeat split. by exists 1%Z.
  - repeat split.
  - vm_compute. apply list_elem_of_here.
Defined.

(** * Further properties, part 3: formatting *)

Lemma fmt_f3_thousandths m k : fmt_f3 m k = print_thousandths (thousandths m k).
Proof. reflexivity. Qed.

Lemma round_half_even_bounds num den :
  den <> 0 ->
  num / den <= round_half_even num den <= num / den + 1 /\
  (num mod den = 0 -> round_half_even num den = num / den).
Proof.
  intros Hd. unfold round_half_even. split.
  - destruct (_ || _); lia.
  - intros Hr. rewrite Hr, N.mul_0_r.
    destruct (N.ltb_spec den 0); [lia|].
    destruct (N.eqb_spec 0 den); [lia|]. done.
Qed.

(** A count above [D] and up to [c * D], in units of [D], rounds to
    between 1.000 and [c].000. *)
Lemma thousandths_range n D c :
  D <> 0 -> D <= n -> n <= c * D ->
  1000 <= round_half_even (1000 * n) D <= 1000 * c.
Proof.
  intros HD Hlo Hhi.
  destruct (round_half_even_bounds (1000 * n) D HD) as [[Hl Hu] Hex].
  split.
  - etrans; [|exact Hl]. apply N.div_le_lower_bound; [done|]. lia.
  - destruct (N.eq_dec n (c * D)) as [->|Hne].
    + rewrite Hex.
      * replace (1000 * (c * D)) with (1000 * c * D) by lia. by rewrite N.div_mul.
      * replace (1000 * (c * D)) with (1000 * c * D) by lia. by apply N.Div0.mod_mul.
    + assert (1000 * n / D < 1000 * c); [|lia].
      apply N.Div0.div_lt_upper_bound. nia.
Qed.

Lemma float64_exact n : n < 2 ^ 53 -> float64_of_uint64 n = n.
Proof.
  intros H. unfold float64_of_uint64. by destruct (N.ltb_spec n (2 ^ 53)); [|lia].
Qed.

(** Above [2^53] the conversion rounds, but stays within [2^53 .. 2^64]. *)
Lemma float64_range n :
  2 ^ 53 <= n -> n < 2 ^ 64 -> 2 ^ 53 <= float64_of_uint64 n <= 2 ^ 64.
Proof.
  intros Hlo Hhi. unfold float64_of_uint64.
  destruct (N.ltb_spec n (2 ^ 53)); [lia|].
  assert (Hn : 0 < n) by lia.
  destruct (N.log2_spec n Hn) as [Hl Hu].
  assert (H53 : 53 <= N.log2 n).
  { apply N.log2_le_pow2; [lia|done]. }
  assert (H63 : N.log2 n < 64).
  { apply N.log2_lt_pow2; [lia|done]. }
  set (e := N.log2 n - 52).
  assert (He : N.log2 n = e + 52) by lia.
  assert (HD : 2 ^ e <> 0) by (apply N.pow_nonzero; lia).
  rewrite He in Hl. rewrite He, <- N.add_succ_r in Hu.
  rewrite N.pow_add_r in Hl, Hu.
  destruct (round_half_even_bounds n (2 ^ e) HD) as [[Hq Hq'] _].
  assert (Hq1 : 2 ^ 52 <= n / 2 ^ e).
  { apply N.div_le_lower_bound; [done|]. lia. }
  assert (Hq2 : n / 2 ^ e < 2 ^ N.succ 52).
  { apply N.Div0.div_lt_upper_bound. lia. }
  assert (He1 : 2 ^ 1 <= 2 ^ e) by (apply N.pow_le_mono_r; lia).
  assert (He2 : 2 ^ e <= 2 ^ 11) by (apply N.pow_le_mono_r; lia).
  change (N.succ 52) with 53 in *.
  change (2 ^ 53) with 9007199254740992 in *.
  change (2 ^ 52) with 4503599627370496 in *.
  change (2 ^ 64) with 18446744073709551616 in *.
  change (2 ^ 11) with 2048 in *. change (2 ^ 1) with 2 in *.
  split; nia.
Qed.

(** X12.  How [String] scales the byte count.  Up to [1<<10] bytes the
    count is printed as it is.  Above, the number printed (the float
    conversion is exact here) is the count divided by the unit, rounded
    to three decimals, and lies between 1.000 and 1024.000 for KiB, MiB
    and GiB; for TiB it lies between 1.000 and 16777216.000. *)
Theorem scaled_value_bounds (s : Stat) :
  Bytes s < uint64_modulus ->
  (Bytes s <= 2 ^ 10 -> byte_str s = fmt_d (Bytes s) +:+ "B") /\
  (2 ^ 10 < Bytes s <= 2 ^ 20 ->
   byte_str s = print_thousandths (thousandths (Bytes s) 10) +:+ " KiB" /\
   1000 <= thousandths (Bytes s) 10 <= 1024000) /\
  (2 ^ 20 < Bytes s <= 2 ^ 30 ->
   byte_str s = print_thousandths (thousandths (Bytes s) 20) +:+ " MiB" /\
   1000 <= thousandths (Bytes s) 20 <= 1024000) /\
  (2 ^ 30 < Bytes s <= 2 ^ 40 ->
   byte_str s = print_thousandths (thousandths (Bytes s) 30) +:+ " GiB" /\
   1000 <= thousandths (Bytes s) 30 <= 1024000) /\
  (2 ^ 40 < Bytes s ->
   byte_str s =
     print_thousandths (thousandths (float64_of_uint64 (Bytes s)) 40) +:+ " TiB" /\
   1000 <= thousandths (float64_of_uint64 (Bytes s)) 40 <= 16777216000).
Proof.
  intros Hv. unfold uint64_modulus in Hv.
  set (n := Bytes s) in *.
  assert (Hstr : byte_str s =
    if 2 ^ 40 <? n then fmt_f3 (float64_of_uint64 n) 40 +:+ " TiB"
    else if 2 ^ 30 <? n then fmt_f3 (float64_of_uint64 n) 30 +:+ " GiB"
    else if 2 ^ 20 <? n then fmt_f3 (float64_of_uint64 n) 20 +:+ " MiB"
    else if 2 ^ 10 <? n then fmt_f3 (float64_of_uint64 n) 10 +:+ " KiB"
    else fmt_d n +:+ "B") by reflexivity.
  rewrite Hstr. clear Hstr.
  change (2 ^ 10) with 1024 in *. change (2 ^ 20) with 1048576 in *.
  change (2 ^ 30) with 1073741824 in *. change (2 ^ 40) with 1099511627776 in *.
  assert (Hex : n <= 1099511627776 -> float64_of_uint64 n = n).
  { intros H. apply float64_exact. change (2 ^ 53) with 9007199254740992. lia. }
  destruct (N.ltb_spec 1099511627776 n), (N.ltb_spec 1073741824 n),
    (N.ltb_spec 1048576 n), (N.ltb_spec 1024 n);
    (split; [intros ?|split; [intros [? ?]|split; [intros [? ?]|split;
               [intros [? ?]|intros ?]]]]); try lia;
    rewrite ?Hex by lia; rewrite ?fmt_f3_thousandths; try done;
    (split; [done|]); unfold thousandths.
  - (* TiB *)
    change (2 ^ 40) with 1099511627776.
    change 16777216000 with (1000 * 16777216).
    apply thousandths_range; [lia| |].
    + destruct (N.lt_ge_cases n (2 ^ 53)) as [Hs|Hb].
      * rewrite float64_exact by done. lia.
      * destruct (float64_range n Hb Hv) as [Hf _].
        change (2 ^ 53) with 9007199254740992 in Hf. lia.
    + destruct (N.lt_ge_cases n (2 ^ 53)) as [Hs|Hb].
      * rewrite float64_exact by done. lia.
      * destruct (float64_range n Hb Hv) as [_ Hf].
        change (2 ^ 64) with 18446744073709551616 in Hf. lia.
  - change (2 ^ 30) with 1073741824. change 1024000 with (1000 * 1024).
    apply thousandths_range; lia.
  - change (2 ^ 20) with 1048576. change 1024000 with (1000 * 1024).
    apply thousandths_range; lia.
  - change (2 ^ 10) with 1024. change 1024000 with (1000 * 1024).
    apply thousandths_range; lia.
Qed.

Lemma scaled_value_bounds_witness :
  byte_str (mkStat 0 0 1536 0 0) = "1.500 KiB" /\
  1000 <= thousandths 1536 10 <= 1024000.
Proof.
  destruct (scaled_value_bounds (mkStat 0 0 1536 0 0) eq_refl) as (_ & HK & _).
  apply HK. split; [reflexivity|]. intros H. discriminate H.
Defined.

(** ** One goroutine that reports, next to the reporter *)

#[local] Arguments own_totals : simpl never.
#[local] Arguments totals_upto : simpl never.

Lemma sum_counter_app f ds1 ds2 :
  sum_counter f (ds1 ++ ds2) = sum_counter f ds1 + sum_counter f ds2.
Proof.
  induction ds1 as [|s ds1 IH]; [done|].
  cbn [app sum_counter foldr]. fold (sum_counter f (ds1 ++ ds2)) (sum_counter f ds1).
  rewrite IH. lia.
Qed.

Lemma own_totals_app tr1 tr2 : own_totals (tr1 ++ tr2) = own_totals tr1 ++ own_totals tr2.
Proof. apply omap_app. Qed.

Lemma total_after_Add base ds s :
  total_after base (ds ++ [s]) = Add (total_after base ds) s.
Proof.
  unfold total_after, Add. cbn [Files Dirs Bytes Trees Blobs].
  rewrite !sum_counter_app. cbn [sum_counter foldr get]. unfold add64.
  rewrite !wrap64_add_l, !N.add_0_r, !N.add_assoc. done.
Qed.

Lemma total_after_cons base s ds :
  total_after base (s :: ds) = total_after (Add base s) ds.
Proof.
  unfold total_after, Add. cbn [Files Dirs Bytes Trees Blobs sum_counter foldr get].
  fold (sum_counter CFiles ds) (sum_counter CDirs ds) (sum_counter CBytes ds).
  unfold add64. rewrite !wrap64_add_l, !N.add_assoc. done.
Qed.

Lemma totals_upto_S base ds m :
  totals_upto base ds (S m) = totals_upto base ds m ++ [total_after base (take (S m) ds)].
Proof. unfold totals_upto. by rewrite seq_S, map_app. Qed.

Lemma totals_upto_cons base s ds m :
  totals_upto base (s :: ds) (S m) = Add base s :: totals_upto (Add base s) ds m.
Proof.
  unfold totals_upto. cbn [seq map take]. f_equal.
  - rewrite total_after_cons. unfold total_after. cbn [sum_counter foldr].
    unfold Add, add64. cbn [Files Dirs Bytes Trees Blobs].
    by rewrite !wrap64_add_l, !N.add_0_r.
  - rewrite <- seq_shift, map_map. apply map_ext. intros k.
    cbn [take]. apply total_after_cons.
Qed.

Lemma running_totals_upto ds : forall base,
  running_totals base ds = totals_upto base ds (length ds).
Proof.
  induction ds as [|s ds IH]; intros base; [done|].
  cbn [running_totals length]. by rewrite totals_upto_cons, IH.
Qed.

Lemma totals_upto_prefix base ds m n :
  (m <= n)%nat -> totals_upto base ds m `prefix_of` totals_upto base ds n.
Proof.
  intros Hmn. unfold totals_upto.
  replace n with (m + (n - m))%nat by lia. rewrite seq_app, map_app.
  by apply prefix_app_r.
Qed.

Lemma total_after_nil base : Stat_valid base -> total_after base [] = base.
Proof.
  intros (H1 & H2 & H3 & _). unfold total_after. cbn [sum_counter foldr].
  rewrite !N.add_0_r, !wrap64_small by done. by destruct base.
Qed.

Lemma total_after_elem base ds j :
  Stat_valid base ->
  total_after base (take j ds) ∈ base :: running_totals base ds.
Proof.
  intros Hv.
  destruct (take j ds) as [|s pre] eqn:Hpre.
  - rewrite total_after_nil by done. apply list_elem_of_here.
  - apply list_elem_of_further. rewrite running_totals_upto, <- Hpre. unfold totals_upto.
    assert (Hj : (1 <= j)%nat) by (destruct j; [done|lia]).
    assert (Hd : (1 <= length ds)%nat) by (destruct ds; [by destruct j|cbn; lia]).
    destruct (decide (j <= length ds)%nat) as [Hle|Hgt].
    + apply (list_elem_of_fmap_2 (fun k => total_after base (take k ds)) _ j).
      apply elem_of_seq. lia.
    + rewrite take_ge by lia.
      replace ds with (take (length ds) ds) at 1 by (by rewrite take_ge).
      apply (list_elem_of_fmap_2 (fun k => total_after base (take k ds))).
      apply elem_of_seq. lia.
Qed.

Lemma Stat_fields s s' :
  (forall f, get f s = get f s') -> Trees s = Trees s' -> Blobs s = Blobs s' -> s = s'.
Proof.
  intros Hg HT HB. pose proof (Hg CFiles). pose proof (Hg CDirs). pose proof (Hg CBytes).
  destruct s, s'; cbn in *. congruence.
Qed.

Lemma get_total_after f base ds :
  get f (total_after base ds) = wrap64 (get f base + sum_counter f ds).
Proof. by destruct f. Qed.

(** The total is whole whenever no [Add] is under way. *)
Lemma cur_is_total base pre σ tw :
  (forall f, wrap64 (get f (cur (obj σ)) + unstored f tw)
             = wrap64 (get f base + sum_counter f pre)) ->
  (forall f, unstored f tw = 0) ->
  (forall f, get f (cur (obj σ)) < uint64_modulus) ->
  Trees (cur (obj σ)) = Trees base -> Blobs (cur (obj σ)) = Blobs base ->
  cur (obj σ) = total_after base pre.
Proof.
  intros HC Hun Hv HT HB. apply Stat_fields; [|done|done].
  intros f. rewrite get_total_after, <- HC, Hun, N.add_0_r.
  symmetry. by apply wrap64_small.
Qed.

Lemma todo_worker ds : todo (worker ds) = ds.
Proof. by destruct ds. Qed.

Lemma awaiting_worker ds : awaiting (worker ds) = 0%nat.
Proof. by destruct ds. Qed.

Lemma unstored_worker f ds : unstored f (worker ds) = 0.
Proof. by destruct ds. Qed.

Lemma snap_held_worker ds : snap_held (worker ds) = None.
Proof. by destruct ds. Qed.

Lemma found_OnUpdate_worker ds : found_OnUpdate (worker ds) = false.
Proof. by destruct ds. Qed.

Lemma reports_or_returned_worker ds : reports_or_returned (worker ds) = true.
Proof. by destruct ds. Qed.

Lemma producer_ok_init q ds :
  armed q -> Stat_valid (cur q) ->
  producer_ok (OnUpdate q) (cur q) ds (reporting q [ds]).
Proof.
  intros (Hr & _ & Hcl & Hc) Hv.
  split; [by apply report_ok_init|]. split; [done|].
  exists PP_select, (worker ds), []. cbn [fst snd trace length app].
  split; [done|]. split; [by destruct ds|].
  rewrite todo_worker, awaiting_worker, found_OnUpdate_worker.
  repeat split; try done.
  - intros f. by rewrite unstored_worker.
  - intros s. by rewrite snap_held_worker.
  - by destruct (OnUpdate q).
  - intros e s He. by apply not_elem_of_nil in He.
Qed.

Lemma producer_ok_step upd base ds mv cfg cfg' :
  producer_ok upd base ds cfg -> step mv cfg = Some cfg' ->
  producer_ok upd base ds cfg'.
Proof.
  intros (Hok & Hu & pc & tw & pre & Hts & Hrr & Hds & Haw & Hfd & HC & HS & HR & HO & HT) Hs.
  pose proof (report_ok_step _ _ _ _ _ Hok Hs) as Hok'.
  split; [done|].
  pose proof Hok as (_ & _ & _ & Hall & _ & Htmp & HTr & HBl & Hv & [Mc _]).
  pose proof Hok' as (_ & _ & _ & Hall' & _).
  apply step_Some in Hs as (t & σ' & t' & Hi & Hstep & ->).
  destruct cfg as [σ ts]. cbn [fst snd] in *. subst ts.
  rewrite !count_cons in Mc. cbn [count List.filter length] in Mc.
  destruct (who mv) as [|[|k]]; [| |done].
  - (* a move of the reporter *)
    injection Hi as <-.
    change (<[0%nat:=t']> [InReporter pc; tw]) with [t'; tw] in *.
    cbn [forallb] in Hall'. apply andb_prop in Hall' as [Hnp _].
    assert (Hwhole : in_cur (InReporter pc) = true ->
                     cur (obj σ) = total_after base (take (length pre) ds)).
    { intros Hin. rewrite Hin in Mc. rewrite Hds, take_app_length.
      apply (cur_is_total base pre σ tw); try done.
      intros f. apply unstored_in_cur.
      destruct (in_cur tw), (curM σ); cbn in Mc; (done || lia). }
    destruct pc; cbn in Hstep; repeat case_match; simplify_eq; try discriminate Hnp;
      cbn [advance log set_curM set_fnM obj trace];
      (split; [done|]); eexists _, tw, pre; (split; [reflexivity|]);
      (split; [done|]);
      rewrite ?own_totals_app; cbn [own_totals omap own_total];
      rewrite ?app_nil_r; repeat split; try done;
      cbn [snap_held]; try (intros s [= <-]); eauto.
    all: intros e s [He|He]%elem_of_app Hs; [by eauto|];
      apply list_elem_of_singleton in He as ->; injection Hs as <-; by apply HR.
  - (* a move of the goroutine that reports *)
    injection Hi as <-.
    change (<[1%nat:=t']> [InReporter pc; tw]) with [InReporter pc; t'] in *.
    cbn [forallb] in Hall'. apply andb_prop in Hall' as [_ [Hnp _]%andb_prop].
    specialize (Htmp 1%nat).
    assert (Hwhole : (forall f, unstored f tw = 0) ->
                     cur (obj σ) = total_after base pre).
    { intros Hun. by apply (cur_is_total base pre σ tw). }
    revert Hu HO Hfd.
    destruct tw as [pcw s rest| | | |]; try discriminate Hrr; [|done].
    destruct pcw as [| |[]|[]| | | | | |]; cbn in Hstep; repeat case_match; simplify_eq;
      try discriminate Hnp;
      cbn [advance log set_curM set_fnM set_obj obj trace set_cur cur OnUpdate] in *;
      intros Hu HO Hfd; (split; [by destruct (obj σ)|]).
    all: try match goal with
             | H : forall f tmp s rest, _ -> tmp = _ |- context [RP_store _ ?tmp] =>
                 pose proof (H _ _ _ _ eq_refl); subst tmp
             end.
    all: clear Htmp.
    all: try (pose proof (Hfd (eq_refl true)) as Hup; try discriminate Hup).
    (* taking the lock: the delta of this call joins [pre] *)
    all: try (eexists pc, (InReport (RP_load CBytes) _ _), (pre ++ [_]);
         (split; [reflexivity|]);
         cbn [todo before_lock awaiting found_OnUpdate snap_held unstored
              reports_or_returned] in *;
         rewrite <- ?app_assoc, ?length_app, ?Nat.sub_0_r in *; cbn [length app];
         replace (length pre + 1 - 1)%nat with (length pre) by lia;
         repeat split; try done; try lia;
         intros f; specialize (HC f); rewrite N.add_0_r in HC;
         rewrite sum_counter_app; cbn [sum_counter foldr];
         rewrite N.add_0_r, N.add_assoc; by apply wrap64_add_both).
    (* the other moves *)
    all: eexists pc, _, pre; (split; [reflexivity|]);
         (split; [by rewrite ?reports_or_returned_worker|]);
         rewrite ?todo_worker, ?awaiting_worker, ?found_OnUpdate_worker;
         cbn [todo before_lock awaiting found_OnUpdate snap_held unstored] in *;
         rewrite ?Nat.sub_0_r in *;
         repeat split; try done; try lia;
         try (intros; by rewrite ?unstored_worker);
         try (intros ? Hsn; by rewrite snap_held_worker in Hsn);
         try (intros ? [= <-]; by apply Hwhole);
         try (intros f; specialize (HC f); destruct f; cbn in HC |- *; unfold add64;
              rewrite ?wrap64_add_l, ?N.add_0_r in *; done);
         try congruence.
    (* the call of OnUpdate *)
    all: try (intros e s0 [He|He]%elem_of_app Hs0; [by eauto|];
              apply list_elem_of_singleton in He as ->; discriminate Hs0).
    all: rewrite own_totals_app, HO; cbn [own_totals omap own_total].
    all: rewrite (HS _ eq_refl).
    all: destruct (length pre) as [|n] eqn:Hlen; [lia|].
    all: rewrite totals_upto_S, <- Hlen, take_app_length.
    all: do 2 f_equal; lia.
Qed.

(** X4.  One goroutine calls [Report] for each of the deltas [ds] on a
    running instance, next to the reporter, no other goroutine
    reporting.  However the two are scheduled, nobody panics; the totals
    that the calls of [Report] hand to [OnUpdate] are, in the order of
    the calls, the totals that adding the deltas one after the other
    gives, as far as the calls have got, and all of them once the last
    call has returned; every total that a tick hands to [OnUpdate] is
    the starting total or one of those; when [OnUpdate] is not set,
    [Report] makes no call.  Every interleaving can be continued until
    the last call has returned. *)
Theorem updates_in_order (q : Progress) (ds : list Stat) (sched : list move) :
  armed q -> Stat_valid (cur q) ->
  nobody_panicked (run sched (reporting q [ds])) = true /\
  own_totals (trace (run sched (reporting q [ds])).1)
    `prefix_of` (if OnUpdate q then running_totals (cur q) ds else []) /\
  (reports_finished (run sched (reporting q [ds])) = true ->
   own_totals (trace (run sched (reporting q [ds])).1)
     = if OnUpdate q then running_totals (cur q) ds else []) /\
  (forall e s,
     e ∈ trace (run sched (reporting q [ds])).1 -> tick_total e = Some s ->
     s ∈ cur q :: running_totals (cur q) ds) /\
  exists more, reports_finished (run (sched ++ more) (reporting q [ds])) = true.
Proof.
  intros Ha Hv.
  assert (Hinv : producer_ok (OnUpdate q) (cur q) ds (run sched (reporting q [ds]))).
  { apply (run_invariant (producer_ok (OnUpdate q) (cur q) ds)).
    - intros mv cfg cfg'. apply producer_ok_step.
    - by apply producer_ok_init. }
  destruct Hinv as (Hok & _ & pc & tw & pre & Hts & Hrr & Hds & Haw & _ & _ & _ & _ & HO & HT).
  split; [by eapply report_ok_nobody_panicked|].
  assert (Hlen : length ds = (length pre + length (todo tw))%nat).
  { rewrite Hds at 1. apply length_app. }
  rewrite HO, running_totals_upto.
  split; [|split; [|split]].
  - destruct (OnUpdate q); [|done]. apply totals_upto_prefix.
    lia.
  - unfold reports_finished. rewrite Hts. cbn [forallb is_worker negb andb].
    destruct tw as [| | | |]; try done. intros _.
    cbn [todo awaiting length] in *. rewrite Nat.sub_0_r, Hlen. by rewrite Nat.add_0_r.
  - intros e s He Hs. destruct (HT e s He Hs) as [j ->].
    rewrite <- running_totals_upto. by apply total_after_elem.
  - destruct (runs_to_completion
                (report_ok (fun f => wrap64 (get f (cur q) + sum_all f [ds]))
                           (Trees (cur q), Blobs (cur q)))
                reports_finished)
      with (cfg := run sched (reporting q [ds])) as [more Hmore].
    + intros mv cfg cfg'. apply report_ok_step.
    + apply report_progress.
    + exact Hok.
    + exists more. by rewrite run_app.
Qed.

Lemma updates_in_order_witness :
  own_totals
    (trace (run (map (fun i => mkMove i true 1)
                     [1; 1; 1; 1; 1; 1; 1; 1; 1; 1; 1; 1; 1; 1;
                      0; 0; 0; 0; 0; 0; 0; 0;
                      1; 1; 1; 1; 1; 1; 1; 1; 1; 1; 1; 1; 1; 1]%nat)
                (reporting (started 0 (new_instance true true 1))
                           [[mkStat 1 0 10 0 0; mkStat 0 1 0 0 0]])).1)
    = [mkStat 1 0 10 0 0; mkStat 1 1 10 0 0].
Proof.
  destruct (updates_in_order
              (started 0 (new_instance true true 1))
              [mkStat 1 0 10 0 0; mkStat 0 1 0 0 0]
              (map (fun i => mkMove i true 1)
                   [1; 1; 1; 1; 1; 1; 1; 1; 1; 1; 1; 1; 1; 1;
                    0; 0; 0; 0; 0; 0; 0; 0;
                    1; 1; 1; 1; 1; 1; 1; 1; 1; 1; 1; 1; 1; 1]%nat))
    as (_ & _ & Hfin & _).
  - repeat split. by exists 1%Z.
  - repeat split.
  - exact (Hfin eq_refl).
Defined.
